(** * MoltPit agent SDK: the Agent Invocation Protocol

    A shallow embedding of [moltpit_agent/agent.py], [moltpit_agent/server.py]
    and the two example bots ([examples/simple_chess_bot.py],
    [examples/stockfish_bot.py]), followed by the properties of the protocol.

    Conventions of the embedding.
    - A value produced by [json.loads] is a [json]; a Python [dict] is an
      insertion-ordered association list and [d[k]] reads the first binding.
    - A Python call that may raise returns a [result]; a method that also
      mutates its object or the process-wide environment runs in [Py],
      which keeps the state reached when the exception was raised.
    - [random.choice] draws from an injectable stream of naturals, and the
      chess-engine subprocess is a stream of outcomes, both held in [world].
    - Console output ([print]), response headers and socket failures are
      not part of the modelled state. [Agent.run_local] is
      [AgentServer(self, port).run()]; the [_server] attribute that keeps
      the server object is left out.
    - A [str] is a Rocq [string] holding its UTF-8 encoding; its characters
      are the code points of that encoding ([utf8_chars]). *)

From Stdlib Require Import String Ascii List ZArith Lia Bool SpecFloat.
From Stdlib Require Import DecimalString.
Import ListNotations.
Open Scope string_scope.
Open Scope Z_scope.
Set Warnings "-register-all".

(** ** Values *)

Inductive json : Type :=
| JNull
| JBool (b : bool)
| JInt (n : Z)
| JFloat (f : spec_float)
| JStr (s : string)
| JArr (items : list json)
| JObj (fields : list (string * json)).

(** [type(v).__name__] *)
Definition type_name (v : json) : string :=
  match v with
  | JNull => "NoneType"
  | JBool _ => "bool"
  | JInt _ => "int"
  | JFloat _ => "float"
  | JStr _ => "str"
  | JArr _ => "list"
  | JObj _ => "dict"
  end.

(** [bool(v)]: the test performed by [if v:] and [not v]. *)
Definition truthy (v : json) : bool :=
  match v with
  | JNull => false
  | JBool b => b
  | JInt n => negb (n =? 0)
  | JFloat f => match f with S754_zero _ => false | _ => true end
  | JStr s => negb (String.eqb s "")
  | JArr l => match l with [] => false | _ => true end
  | JObj d => match d with [] => false | _ => true end
  end.

Fixpoint lookup (k : string) (d : list (string * json)) : option json :=
  match d with
  | [] => None
  | (k', v) :: d' => if String.eqb k k' then Some v else lookup k d'
  end.

(** ** Exceptions *)

Inductive exn : Type :=
| ValueError (msg : string)
| NotImplementedError (msg : string)
| KeyError (key_repr : string)
| IndexError (msg : string)
| TypeError (msg : string)
| AttributeError (ty attr : string)
| OtherException (cls msg : string).

(** [str(e)] for [e] an exception instance. *)
Definition str (e : exn) : string :=
  match e with
  | ValueError m => m
  | NotImplementedError m => m
  | KeyError r => r
  | IndexError m => m
  | TypeError m => m
  | AttributeError ty attr =>
      "'" ++ ty ++ "' object has no attribute '" ++ attr ++ "'"
  | OtherException _ m => m
  end.

Definition result (A : Type) : Type := (exn + A)%type.

Definition ok {A} (x : A) : result A := inr x.
Definition raise {A} (e : exn) : result A := inl e.

Definition rbind {A B} (r : result A) (k : A -> result B) : result B :=
  match r with
  | inl e => inl e
  | inr x => k x
  end.

Declare Scope result_scope.
Delimit Scope result_scope with res.
Notation "'let?' x ':=' r 'in' k" := (rbind r (fun x => k))
  (at level 10, x name, r at level 100, k at level 200) : result_scope.

(** ** Python operations used by the agents *)

(** [repr(k)] for a string [k] that has no quote, no backslash and no
    non-printable character, as all the keys used by the agents. *)
Definition repr_str (k : string) : string := "'" ++ k ++ "'".

Definition Z_to_str (n : Z) : string :=
  NilZero.string_of_int (Z.to_int n).

(** [obj.get(key, default)] *)
Definition py_get (obj : json) (key : string) (default : json) : result json :=
  match obj with
  | JObj d => ok (match lookup key d with Some v => v | None => default end)
  | _ => raise (AttributeError (type_name obj) "get")
  end.

Definition not_subscriptable {A} (obj : json) : result A :=
  raise (TypeError ("'" ++ type_name obj ++ "' object is not subscriptable")).

(** [obj[key]] with [key] a string constant *)
Definition py_item (obj : json) (key : string) : result json :=
  match obj with
  | JObj d =>
      match lookup key d with
      | Some v => ok v
      | None => raise (KeyError (repr_str key))
      end
  | JArr _ => raise (TypeError "list indices must be integers or slices, not str")
  | JStr _ => raise (TypeError "string indices must be integers, not 'str'")
  | _ => not_subscriptable obj
  end.

(** The characters of a [str]: in UTF-8 a character starts at every byte
    that is not a continuation byte [10xxxxxx]. *)
Definition is_continuation (c : ascii) : bool :=
  match c with
  | Ascii _ _ _ _ _ _ b6 b7 => b7 && negb b6
  end.

Fixpoint utf8_chars (s : string) : list string :=
  match s with
  | EmptyString => []
  | String c s' =>
      match s' with
      | EmptyString => [String c ""]
      | String c' _ =>
          if is_continuation c' then
            match utf8_chars s' with
            | ch :: chs => String c ch :: chs
            | [] => [String c ""]
            end
          else String c "" :: utf8_chars s'
      end
  end.

(** [s[i]] for a [str], [i] a non-negative integer within bounds *)
Definition char_at (s : string) (i : nat) : option json :=
  match nth_error (utf8_chars s) i with
  | Some ch => Some (JStr ch)
  | None => None
  end.

(** [s[start:stop]] for a [str] and non-negative bounds *)
Definition py_slice (s : string) (start stop : nat) : string :=
  String.concat "" (firstn (stop - start) (skipn start (utf8_chars s))).

(** [obj[i]] with [i] a non-negative integer *)
Definition py_index (obj : json) (i : nat) : result json :=
  match obj with
  | JArr l =>
      match nth_error l i with
      | Some v => ok v
      | None => raise (IndexError "list index out of range")
      end
  | JStr s =>
      match char_at s i with
      | Some v => ok v
      | None => raise (IndexError "string index out of range")
      end
  | JObj _ => raise (KeyError (Z_to_str (Z.of_nat i)))
  | _ => not_subscriptable obj
  end.

(** [len(obj)] *)
Definition py_len (obj : json) : result nat :=
  match obj with
  | JArr l => ok (List.length l)
  | JStr s => ok (List.length (utf8_chars s))
  | JObj d => ok (List.length d)
  | _ => raise (TypeError ("object of type '" ++ type_name obj ++ "' has no len()"))
  end.

Definition chars (s : string) : list json := map JStr (utf8_chars s).

(** The elements visited by [for m in obj]. *)
Definition py_iter (obj : json) : result (list json) :=
  match obj with
  | JArr l => ok l
  | JStr s => ok (chars s)
  | JObj d => ok (map (fun kv => JStr (fst kv)) d)
  | _ => raise (TypeError ("'" ++ type_name obj ++ "' object is not iterable"))
  end.

Fixpoint contains_char (c : ascii) (s : string) : bool :=
  match s with
  | EmptyString => false
  | String c' s' => Ascii.eqb c c' || contains_char c s'
  end.

Definition is_str (s : string) (v : json) : bool :=
  match v with
  | JStr s' => String.eqb s s'
  | _ => false
  end.

(** [c in obj] with [c] a one-character string constant *)
Definition py_in (c : ascii) (obj : json) : result bool :=
  match obj with
  | JStr s => ok (contains_char c s)
  | JArr l => ok (existsb (is_str (String c "")) l)
  | JObj d => ok (existsb (fun kv => String.eqb (String c "") (fst kv)) d)
  | _ => raise (TypeError ("argument of type '" ++ type_name obj ++ "' is not iterable"))
  end.

(** [[m for m in ms if p(m)]], stopping at the first [m] where [p] raises. *)
Fixpoint comprehension (p : json -> result bool) (ms : list json)
  : result (list json) :=
  match ms with
  | [] => ok []
  | m :: ms' =>
      (let? b := p m in
       let? r := comprehension p ms' in
       ok (if b then m :: r else r))%res
  end.

(** ** The process environment: random source and chess engine *)

Record world : Type := mkWorld {
  rng : nat -> nat;              (* the draws [random] will make, in order *)
  engine : nat -> result string  (* what each engine subprocess will do: the
                                    exception raised by [Popen]/[communicate],
                                    or its whole standard output *)
}.

Definition shift {A} (f : nat -> A) : nat -> A := fun i => f (S i).

(** Methods: [S] is the object the method is called on. *)
Definition Py (S A : Type) : Type := S -> world -> result A * S * world.

Definition ret {S A} (x : A) : Py S A := fun s w => (ok x, s, w).
Definition throw {S A} (e : exn) : Py S A := fun s w => (raise e, s, w).
Definition pure {S A} (r : result A) : Py S A := fun s w => (r, s, w).

Definition bind {S A B} (m : Py S A) (k : A -> Py S B) : Py S B :=
  fun s w =>
    match m s w with
    | (inl e, s', w') => (inl e, s', w')
    | (inr x, s', w') => k x s' w'
    end.

(** [try: m  except Exception as e: h e] *)
Definition try_except {S A} (m : Py S A) (h : exn -> Py S A) : Py S A :=
  fun s w =>
    match m s w with
    | (inl e, s', w') => h e s' w'
    | (inr x, s', w') => (inr x, s', w')
    end.

Definition get_self {S} : Py S S := fun s w => (ok s, s, w).

Declare Scope py_scope.
Delimit Scope py_scope with py.
Notation "x <- m ;; k" := (bind m (fun x => k))
  (at level 61, m at next level, right associativity) : py_scope.
Notation "m ;; k" := (bind m (fun _ => k))
  (at level 61, right associativity) : py_scope.

(** [random.choice(seq)]: [len(seq)], then [seq[i]] for the next draw [i]. *)
Definition random_choice {S} (seq : json) : Py S json :=
  fun s w =>
    match py_len seq with
    | inl e => (inl e, s, w)
    | inr O => (raise (IndexError "Cannot choose from an empty sequence"), s, w)
    | inr n =>
        (py_index seq (Nat.modulo (rng w 0%nat) n), s,
         mkWorld (shift (rng w)) (engine w))
    end.

(** [subprocess.Popen([path], ...).communicate(commands, timeout=30)[0]] *)
Definition run_engine {S} : Py S string :=
  fun s w => (engine w 0%nat, s, mkWorld (rng w) (shift (engine w))).

(** ** agent.py *)

(** [MoveResponse]: a required action and optional commentary. *)
Record MoveResponse : Type := mkMoveResponse {
  action : json;
  trash_talk : option string
}.

Definition to_dict (self : MoveResponse) : list (string * json) :=
  let result := [("action", action self)] in
  match trash_talk self with
  | Some t => if truthy (JStr t) then result ++ [("trashTalk", JStr t)] else result
  | None => result
  end.

(** The capability set of [class Agent(ABC)]. *)
Class Agent (A : Type) : Type := {
  name : A -> string;
  description : A -> string;
  game_type : A -> string;
  make_move : json -> Py A json;
  on_game_start : json -> Py A unit;
  on_game_end : json -> Py A unit
}.

(** The attributes set by [Agent.__init__]. *)
Record AgentBase : Type := mkAgentBase {
  self_name : string;
  self_description : string
}.

(** [Agent.on_game_start] and [Agent.on_game_end]: [pass]. *)
Definition Agent_on_game_start {S} (game_state : json) : Py S unit := ret tt.
Definition Agent_on_game_end {S} (result : json) : Py S unit := ret tt.

Definition ChessAgent_game_type : string := "chess".

(** [ChessAgent.make_move]: the first valid move. *)
Definition ChessAgent_make_move {S} (game_state : json) : Py S json :=
  (valid_moves <- pure (py_get game_state "validMoves" JNull) ;;
   if negb (truthy valid_moves) then
     throw (ValueError "No valid moves available")
   else
     moves <- pure (py_item game_state "validMoves") ;;
     move <- pure (py_index moves 0) ;;
     from <- pure (py_item move "from") ;;
     to <- pure (py_item move "to") ;;
     promotion <- pure (py_get move "promotion" JNull) ;;
     ret (JObj [("action",
                 JObj [("from", from); ("to", to); ("promotion", promotion)])]))%py.

Definition ChessAgent : Type := AgentBase.

#[export] Instance ChessAgent_Agent : Agent ChessAgent := {
  name := self_name;
  description := self_description;
  game_type := fun _ => ChessAgent_game_type;
  make_move := ChessAgent_make_move;
  on_game_start := Agent_on_game_start;
  on_game_end := Agent_on_game_end
}.

Record TriviaAgent : Type := mkTriviaAgent { trivia_base : AgentBase }.

#[export] Instance TriviaAgent_Agent : Agent TriviaAgent := {
  name := fun a => self_name (trivia_base a);
  description := fun a => self_description (trivia_base a);
  game_type := fun _ => "trivia";
  make_move := fun _ => throw (NotImplementedError "Trivia agent not yet implemented");
  on_game_start := Agent_on_game_start;
  on_game_end := Agent_on_game_end
}.

Record DebateAgent : Type := mkDebateAgent { debate_base : AgentBase }.

#[export] Instance DebateAgent_Agent : Agent DebateAgent := {
  name := fun a => self_name (debate_base a);
  description := fun a => self_description (debate_base a);
  game_type := fun _ => "debate";
  make_move := fun _ => throw (NotImplementedError "Debate agent not yet implemented");
  on_game_start := Agent_on_game_start;
  on_game_end := Agent_on_game_end
}.

(** ** examples/simple_chess_bot.py *)

Record SimpleChessBot : Type := mkSimpleChessBot {
  simple_base : AgentBase;
  move_count : Z;
  trash_talk_lines : list json
}.

(** [SimpleChessBot.__init__] *)
Definition SimpleChessBot_init : SimpleChessBot :=
  {| simple_base := mkAgentBase "Simple Bot" "A basic chess bot for testing";
     move_count := 0;
     trash_talk_lines :=
       [ JStr "🦞 Claws out!";
         JStr "Is that really your best move?";
         JStr "My circuits are barely warming up.";
         JStr "Interesting choice... for a hatchling.";
         JStr "You're making this too easy.";
         JStr "Into the Pit with you! 🦞";
         JNull;
         JNull ] |}.

Definition set_move_count (n : Z) : Py SimpleChessBot unit :=
  fun self w =>
    (ok tt, mkSimpleChessBot (simple_base self) n (trash_talk_lines self), w).

(** ['x' in m.get("san", "")] *)
Definition san_has (c : ascii) (m : json) : result bool :=
  (let? san := py_get m "san" (JStr "") in py_in c san)%res.

Definition is_capture (m : json) : result bool := san_has "x" m.

(** ['+' in m.get("san", "") or '#' in m.get("san", "")] *)
Definition is_check (m : json) : result bool :=
  (let? plus := san_has "+" m in
   if plus then ok true else san_has "#" m)%res.

Definition center_squares : list string := ["e4"; "d4"; "e5"; "d5"; "c4"; "f4"].

(** [m["to"] in ["e4", "d4", "e5", "d5", "c4", "f4"]] *)
Definition is_center (m : json) : result bool :=
  (let? to := py_item m "to" in
   ok (existsb (fun sq => is_str sq to) center_squares))%res.

(** [[m for m in moves if p(m)]] for [moves] any value *)
Definition select_where {S} (p : json -> result bool) (moves : json)
  : Py S (list json) :=
  pure (let? ms := py_iter moves in comprehension p ms)%res.

(** [SimpleChessBot._select_move] *)
Definition _select_move (moves game_state : json) : Py SimpleChessBot json :=
  (captures <- select_where is_capture moves ;;
   if truthy (JArr captures) then random_choice (JArr captures) else
   checks <- select_where is_check moves ;;
   if truthy (JArr checks) then random_choice (JArr checks) else
   self <- get_self ;;
   if move_count self <? 10 then
     center_moves <- select_where is_center moves ;;
     if truthy (JArr center_moves) then random_choice (JArr center_moves)
     else random_choice moves
   else random_choice moves)%py.

(** [SimpleChessBot.make_move] *)
Definition SimpleChessBot_make_move (game_state : json)
  : Py SimpleChessBot json :=
  (self <- get_self ;;
   set_move_count (move_count self + 1) ;;
   valid_moves <- pure (py_get game_state "validMoves" (JArr [])) ;;
   if negb (truthy valid_moves) then throw (ValueError "No valid moves!") else
   best_move <- _select_move valid_moves game_state ;;
   self <- get_self ;;
   trash_talk <- random_choice (JArr (trash_talk_lines self)) ;;
   from <- pure (py_item best_move "from") ;;
   to <- pure (py_item best_move "to") ;;
   promotion <- pure (py_get best_move "promotion" JNull) ;;
   ret (JObj [("action",
               JObj [("from", from); ("to", to); ("promotion", promotion)]);
              ("trashTalk", trash_talk)]))%py.

(** [SimpleChessBot.on_game_start]: the counter is reset, then the colour is
    read for the message. *)
Definition SimpleChessBot_on_game_start (game_state : json)
  : Py SimpleChessBot unit :=
  (set_move_count 0 ;;
   _ <- pure (py_get game_state "yourColor" (JStr "unknown")) ;;
   ret tt)%py.

Definition SimpleChessBot_on_game_end (result : json)
  : Py SimpleChessBot unit := ret tt.

#[export] Instance SimpleChessBot_Agent : Agent SimpleChessBot := {
  name := fun a => self_name (simple_base a);
  description := fun a => self_description (simple_base a);
  game_type := fun _ => ChessAgent_game_type;
  make_move := SimpleChessBot_make_move;
  on_game_start := SimpleChessBot_on_game_start;
  on_game_end := SimpleChessBot_on_game_end
}.

(** ** examples/stockfish_bot.py *)

Record StockfishBot : Type := mkStockfishBot {
  stockfish_base : AgentBase;
  stockfish_path : string;
  depth : Z;
  winning_trash_talk : list json;
  losing_trash_talk : list json
}.

(** [StockfishBot.__init__] *)
Definition StockfishBot_init (stockfish_path : string) (depth : Z)
  : StockfishBot :=
  {| stockfish_base :=
       mkAgentBase "Stockfish Bot" "Powered by the Stockfish chess engine";
     stockfish_path := stockfish_path;
     depth := depth;
     winning_trash_talk :=
       [ JStr "ðŸ¦ž Calculated. Precise. Inevitable.";
         JStr "My evaluation says +3. Your evaluation says 'hope'.";
         JStr "Stockfish sees all. Into the Pit! ðŸ¦ž" ];
     losing_trash_talk :=
       [ JStr "Interesting position...";
         JStr "You've made me think for once." ] |}.

(** [s.split("\n")] *)
Fixpoint split_on (sep : ascii) (s : string) : list string :=
  match s with
  | EmptyString => [""]
  | String c s' =>
      if Ascii.eqb c sep then "" :: split_on sep s'
      else match split_on sep s' with
           | [] => [String c ""]
           | l :: ls => String c l :: ls
           end
  end.

(** The string with the given byte values. *)
Definition bytes (codes : list nat) : string :=
  fold_right (fun n s => String (ascii_of_nat n) s) "" codes.

(** The white space of [str.split()] outside ASCII, in UTF-8: U+0085,
    U+00A0, U+1680, U+2000 to U+200A, U+2028, U+2029, U+202F, U+205F and
    U+3000. *)
Definition unicode_spaces : list string :=
  map bytes
    [ [194; 133]; [194; 160]; [225; 154; 128];
      [226; 128; 128]; [226; 128; 129]; [226; 128; 130]; [226; 128; 131];
      [226; 128; 132]; [226; 128; 133]; [226; 128; 134]; [226; 128; 135];
      [226; 128; 136]; [226; 128; 137]; [226; 128; 138];
      [226; 128; 168]; [226; 128; 169]; [226; 128; 175];
      [226; 129; 159]; [227; 128; 128] ]%nat.

(** Whether a character separates words in [line.split()]: U+0009 to
    U+000D, U+001C to U+0020, or one of [unicode_spaces]. *)
Definition is_space (ch : string) : bool :=
  match ch with
  | String c EmptyString =>
      let n := nat_of_ascii c in
      ((9 <=? n) && (n <=? 13) || (28 <=? n) && (n <=? 32))%nat
  | _ => existsb (String.eqb ch) unicode_spaces
  end.

(** The words of a list of characters: its maximal runs without white
    space. *)
Fixpoint words (chs : list string) : list string :=
  match chs with
  | [] => []
  | ch :: chs' =>
      if is_space ch then words chs'
      else match chs' with
           | [] => [ch]
           | ch' :: _ =>
               if is_space ch' then ch :: words chs'
               else match words chs' with
                    | [] => [ch]
                    | t :: ts => (ch ++ t) :: ts
                    end
           end
  end.

(** [line.split()] *)
Definition split_ws (s : string) : list string := words (utf8_chars s).

Definition newline : ascii := ascii_of_nat 10.

(** The body of the [for line in stdout.split("\n")] loop and the [raise]
    after it. *)
Fixpoint parse_bestmove (lines : list string) : result json :=
  match lines with
  | [] => raise (ValueError "Could not parse Stockfish output")
  | line :: rest =>
      if String.prefix "bestmove" line then
        match split_ws line with
        | _ :: move_str :: _ =>
            ok (JObj [("from", JStr (py_slice move_str 0 2));
                      ("to", JStr (py_slice move_str 2 4));
                      ("promotion",
                       if (4 <? List.length (utf8_chars move_str))%nat then
                         match char_at move_str 4 with
                         | Some c => c
                         | None => JNull
                         end
                       else JNull)])
        | _ => parse_bestmove rest
        end
      else parse_bestmove rest
  end.

(** [StockfishBot._get_stockfish_move] *)
Definition _get_stockfish_move (fen : json) : Py StockfishBot json :=
  (stdout <- run_engine ;;
   pure (parse_bestmove (split_on newline stdout)))%py.

(** [StockfishBot.make_move] *)
Definition StockfishBot_make_move (game_state : json) : Py StockfishBot json :=
  (fen <- pure (py_get game_state "fen" (JStr "")) ;;
   valid_moves <- pure (py_get game_state "validMoves" (JArr [])) ;;
   if negb (truthy valid_moves) then throw (ValueError "No valid moves!") else
   best_move <-
     try_except (_get_stockfish_move fen)
       (fun e =>
          best_move <- random_choice valid_moves ;;
          from <- pure (py_item best_move "from") ;;
          to <- pure (py_item best_move "to") ;;
          ret (JObj [("from", from); ("to", to)])) ;;
   self <- get_self ;;
   trash_talk <- random_choice (JArr (winning_trash_talk self)) ;;
   ret (JObj [("action", best_move); ("trashTalk", trash_talk)]))%py.

(** [StockfishBot.on_game_start]: the colour is read for the message. *)
Definition StockfishBot_on_game_start (game_state : json)
  : Py StockfishBot unit :=
  (_ <- pure (py_get game_state "yourColor" (JStr "unknown")) ;;
   ret tt)%py.

Definition StockfishBot_on_game_end (result : json) : Py StockfishBot unit :=
  ret tt.

#[export] Instance StockfishBot_Agent : Agent StockfishBot := {
  name := fun a => self_name (stockfish_base a);
  description := fun a => self_description (stockfish_base a);
  game_type := fun _ => ChessAgent_game_type;
  make_move := StockfishBot_make_move;
  on_game_start := StockfishBot_on_game_start;
  on_game_end := StockfishBot_on_game_end
}.

(** ** server.py *)

(** What the handler writes back: a JSON document with its status
    ([_send_json]), or the error page of the inherited
    [BaseHTTPRequestHandler.send_error]. *)
Inductive response : Type :=
| JsonResponse (status : Z) (data : json)
| ErrorPage (status : Z) (message : string).

Definition status_of (r : response) : Z :=
  match r with
  | JsonResponse s _ => s
  | ErrorPage s _ => s
  end.

(** A request as the handler sees it, once the inherited [parse_request]
    has accepted its request line and headers. [payload] is the outcome of
    [[
      content_length = int(self.headers.get("Content-Length", 0))
      body = self.rfile.read(content_length)
      data = json.loads(body.decode("utf-8"))
    ]]
    that is, [data] or the exception one of the three lines raises. *)
Record request : Type := mkRequest {
  command : string;
  path : string;
  payload : result json
}.

Definition _send_json (data : json) (status : Z) : response :=
  JsonResponse status data.

Definition _send_error (status : Z) (message : string) : response :=
  _send_json (JObj [("error", JStr message)]) status.

Definition status_ok : json := JObj [("status", JStr "ok")].

(** A request handler: it always writes a response and leaves the agent
    and the environment in some state. *)
Definition Handler (A : Type) : Type := A -> world -> response * A * world.

(** [[
      try: body
      except Exception as e: self._send_error(500, str(e))
    ]] *)
Definition try_route {A} (body : Py A response) : Handler A :=
  fun agent w =>
    match body agent w with
    | (inr r, agent', w') => (r, agent', w')
    | (inl e, agent', w') => (_send_error 500 (str e), agent', w')
    end.

Section Handler.
Context {A : Type} `{Agent A}.

Definition do_GET (r : request) : Handler A :=
  fun agent w =>
    if (path r =? "/health")%string then (_send_json status_ok 200, agent, w)
    else if (path r =? "/info")%string then
      (_send_json (JObj [("name", JStr (name agent));
                         ("description", JStr (description agent));
                         ("gameType", JStr (game_type agent))]) 200,
       agent, w)
    else (_send_error 404 "Not found", agent, w).

Definition do_POST (r : request) : Handler A :=
  if (path r =? "/move")%string then
    try_route
      (data <- pure (payload r) ;;
       game_state <- pure (py_get data "gameState" (JObj [])) ;;
       response <- make_move game_state ;;
       ret (_send_json response 200))%py
  else if (path r =? "/game-start")%string then
    try_route
      (data <- pure (payload r) ;;
       game_state <- pure (py_get data "gameState" (JObj [])) ;;
       on_game_start game_state ;;
       ret (_send_json status_ok 200))%py
  else if (path r =? "/game-end")%string then
    try_route
      (data <- pure (payload r) ;;
       result <- pure (py_get data "result" (JObj [])) ;;
       on_game_end result ;;
       ret (_send_json status_ok 200))%py
  else fun agent w => (_send_error 404 "Not found", agent, w).

(** The inherited [handle_one_request]: the method [do_<command>] when
    the handler class has one, otherwise status 501 from [send_error]. *)
Definition handle (r : request) : Handler A :=
  if (command r =? "GET")%string then do_GET r
  else if (command r =? "POST")%string then do_POST r
  else fun agent w =>
    (ErrorPage 501 ("Unsupported method (" ++ repr_str (command r) ++ ")"),
     agent, w).

(** [serve_forever] over the requests that arrive, one at a time. *)
Fixpoint serve (rs : list request) (agent : A) (w : world)
  : list response * A * world :=
  match rs with
  | [] => ([], agent, w)
  | r :: rs' =>
      let '(resp, agent', w') := handle r agent w in
      let '(resps, agent'', w'') := serve rs' agent' w' in
      (resp :: resps, agent'', w'')
  end.

(** The calls an orchestrator can cause on the agent. *)
Inductive call : Type :=
| MakeMove (game_state : json)
| OnGameStart (game_state : json)
| OnGameEnd (result : json).

Definition run_call (c : call) (agent : A) (w : world) : A * world :=
  match c with
  | MakeMove gs => let '(_, a, w') := make_move gs agent w in (a, w')
  | OnGameStart gs => let '(_, a, w') := on_game_start gs agent w in (a, w')
  | OnGameEnd r => let '(_, a, w') := on_game_end r agent w in (a, w')
  end.

Fixpoint run_calls (cs : list call) (agent : A) (w : world) : A * world :=
  match cs with
  | [] => (agent, w)
  | c :: cs' => let '(a, w') := run_call c agent w in run_calls cs' a w'
  end.
End Handler.

(** ** The process: agent objects, the handler class and running servers *)

(** An agent object of any class. *)
Record agent_obj : Type := Pack {
  obj_type : Type;
  obj_class : Agent obj_type;
  obj_self : obj_type
}.

(** [AgentServer]: [agent] refers to an object of the heap. *)
Record AgentServer : Type := mkAgentServer {
  agent : nat;
  port : Z
}.

Record process : Type := mkProcess {
  heap : list agent_obj;
  AgentRequestHandler_agent : option nat;  (* the class attribute [agent] *)
  listening : list Z;                      (* ports of the servers in
                                              [serve_forever] *)
  env : world
}.

(** [AgentServer.__init__] *)
Definition AgentServer_init (agent : nat) (port : Z) (p : process)
  : AgentServer * process :=
  (mkAgentServer agent port, p).

(** [AgentServer.run] up to [serve_forever]: the class attribute is set,
    then [HTTPServer(...)] binds the port; [bind] is what the operating
    system answers. *)
Definition AgentServer_run (self : AgentServer) (bind : result unit)
    (p : process) : result unit * process :=
  let p1 := mkProcess (heap p) (Some (agent self)) (listening p) (env p) in
  match bind with
  | inl e => (inl e, p1)
  | inr _ =>
      (ok tt, mkProcess (heap p1) (AgentRequestHandler_agent p1)
                (port self :: listening p1) (env p1))
  end.

Fixpoint store {X} (i : nat) (x : X) (l : list X) : list X :=
  match l, i with
  | [], _ => []
  | _ :: l', O => x :: l'
  | y :: l', S i' => y :: store i' x l'
  end.

(** A request arriving at [port]: the server listening there instantiates
    [AgentRequestHandler], whose [self.agent] is the class attribute. No
    response when nothing listens on [port]. *)
Definition process_request (at_port : Z) (r : request) (p : process)
  : option response * process :=
  if existsb (Z.eqb at_port) (listening p) then
    match AgentRequestHandler_agent p with
    | Some ref =>
        match nth_error (heap p) ref with
        | Some (Pack T C self) =>
            let '(resp, self', w') := @handle T C r self (env p) in
            (Some resp,
             mkProcess (store ref (Pack T C self') (heap p))
               (AgentRequestHandler_agent p) (listening p) w')
        | None => (None, p)
        end
    | None => (None, p)
    end
  else (None, p).

(** The response a server would give if it served the agent it was
    constructed with. *)
Definition own_agent_response (s : AgentServer) (r : request) (p : process)
  : option response :=
  match nth_error (heap p) (agent s) with
  | Some (Pack T C self) =>
      let '(resp, _, _) := @handle T C r self (env p) in Some resp
  | None => None
  end.

(** ** Requests and game states used in the statements *)

Definition GET (path : string) : request :=
  mkRequest "GET" path (ok JNull).

Definition POST (path : string) (data : json) : request :=
  mkRequest "POST" path (ok data).

Definition is_route (r : request) : bool :=
  ((command r =? "GET") && ((path r =? "/health") || (path r =? "/info"))
   || (command r =? "POST")
      && ((path r =? "/move") || (path r =? "/game-start")
          || (path r =? "/game-end")))%string.

(** A chess move as [ChessAgent.make_move] documents it:
    [{from, to, promotion?, san}]. *)
Definition chess_move (m : json) : bool :=
  match m with
  | JObj d =>
      match lookup "from" d, lookup "to" d, lookup "san" d with
      | Some (JStr _), Some (JStr _), Some (JStr _) => true
      | _, _, _ => false
      end
  | _ => false
  end.

Definition holds (p : json -> result bool) (m : json) : bool :=
  match p m with
  | inr b => b
  | inl _ => false
  end.

Definition constant_world (draw : nat) (out : result string) : world :=
  mkWorld (fun _ => draw) (fun _ => out).

Definition e2e4 : json :=
  JObj [("from", JStr "e2"); ("to", JStr "e4"); ("san", JStr "e4")].
Definition dxe5 : json :=
  JObj [("from", JStr "d2"); ("to", JStr "d4"); ("san", JStr "dxe5")].

Definition capture_scenario : json := JObj [("validMoves", JArr [e2e4; dxe5])].

(** [Agent.run_local], for the agent at [ref]. *)
Definition run_local (ref : nat) (port : Z) (bind : result unit) (p : process)
  : result unit * process :=
  let '(server, p') := AgentServer_init ref port p in
  AgentServer_run server bind p'.

(** The processes that can arise: nothing listens at first, then servers
    are constructed and run and requests arrive, in any order. *)
Inductive reachable : process -> Prop :=
| reach_start heap w :
    reachable (mkProcess heap None [] w)
| reach_init a pt p :
    reachable p -> reachable (snd (AgentServer_init a pt p))
| reach_run s bind p :
    reachable p -> reachable (snd (AgentServer_run s bind p))
| reach_request at_port r p :
    reachable p -> reachable (snd (process_request at_port r p)).

(** A process holding two default chess agents, before any server is
    constructed. *)
Definition two_agents : process :=
  mkProcess
    [Pack ChessAgent ChessAgent_Agent (mkAgentBase "first" "");
     Pack ChessAgent ChessAgent_Agent (mkAgentBase "second" "")]
    None [] (constant_world 0 (ok "")).

(** The body of [GET /info] for a default chess agent called [n]. *)
Definition chess_info (n : string) : response :=
  JsonResponse 200
    (JObj [("name", JStr n); ("description", JStr "");
           ("gameType", JStr "chess")]).

(** ** Notions used to describe the agents' effects *)

(** A method that leaves its object, or the environment, as it found it. *)
Definition keeps_self {S A} (m : Py S A) : Prop :=
  forall s w, snd (fst (m s w)) = s.

Definition keeps_world {S A} (m : Py S A) : Prop :=
  forall s w, snd (m s w) = w.

(** The heuristic agent's counter after one more call. *)
Definition counted (n : Z) (c : call) : Z :=
  match c with
  | MakeMove _ => n + 1
  | OnGameStart _ => 0
  | OnGameEnd _ => n
  end.

(** The agent call a request leads to: one of the three [POST] routes with
    a JSON object as body; the argument is the value under the route's key,
    or [{}]. *)
Definition call_of (r : request) : option call :=
  if (command r =? "POST")%string then
    match payload r with
    | inr (JObj d) =>
        if (path r =? "/move")%string then
          Some (MakeMove
                  (match lookup "gameState" d with Some v => v | None => JObj [] end))
        else if (path r =? "/game-start")%string then
          Some (OnGameStart
                  (match lookup "gameState" d with Some v => v | None => JObj [] end))
        else if (path r =? "/game-end")%string then
          Some (OnGameEnd
                  (match lookup "result" d with Some v => v | None => JObj [] end))
        else None
    | _ => None
    end
  else None.

Fixpoint calls_of (rs : list request) : list call :=
  match rs with
  | [] => []
  | r :: rs' =>
      match call_of r with
      | Some c => c :: calls_of rs'
      | None => calls_of rs'
      end
  end.

(** A string of ASCII characters, and one with no white space in it. *)
Definition is_ascii (c : ascii) : bool :=
  match c with
  | Ascii _ _ _ _ _ _ _ b7 => negb b7
  end.

Fixpoint all_ascii (s : string) : bool :=
  match s with
  | EmptyString => true
  | String c s' => is_ascii c && all_ascii s'
  end.

Fixpoint no_space (s : string) : bool :=
  match s with
  | EmptyString => true
  | String c s' => negb (is_space (String c "")) && no_space s'
  end.

(** The bytes of a string, one by one. *)
Fixpoint singles (s : string) : list string :=
  match s with
  | EmptyString => []
  | String c s' => String c "" :: singles s'
  end.

(** A string that does not begin in the middle of a character. *)
Definition starts_at_char (s : string) : bool :=
  match s with
  | EmptyString => true
  | String c _ => negb (is_continuation c)
  end.

(** A move as [{from, to}] at least, all the fallback of the engine-backed
    agent reads. *)
Definition has_squares (m : json) : bool :=
  match m with
  | JObj d =>
      match lookup "from" d, lookup "to" d with
      | Some _, Some _ => true
      | _, _ => false
      end
  | _ => false
  end.

(** The word an engine prints for a move: two squares and, for a
    promotion, the piece letter. *)
Definition uci (from to : string) (promotion : option ascii) : string :=
  from ++ to ++
  match promotion with
  | Some c => String c ""
  | None => ""
  end.

(** * Properties *)

(** ** The dispatch boundary *)

Section Dispatch.
Context {A : Type} `{Agent A}.

Lemma serve_cons (r : request) (rs : list request) (a : A) (w : world) :
  serve (r :: rs) a w =
  let '(resp, a', w') := handle r a w in
  let '(resps, a'', w'') := serve rs a' w' in
  (resp :: resps, a'', w'').
Proof. reflexivity. Qed.

Lemma health_ok (a : A) (w : world) :
  handle (GET "/health") a w = (JsonResponse 200 status_ok, a, w).
Proof. reflexivity. Qed.

(** What [POST /move] answers, in terms of the agent's [make_move]. *)
Lemma post_move (data gs : json) (a : A) (w : world) :
  py_get data "gameState" (JObj []) = ok gs ->
  handle (POST "/move" data) a w =
  match make_move gs a w with
  | (inr v, a', w') => (JsonResponse 200 v, a', w')
  | (inl e, a', w') => (_send_error 500 (str e), a', w')
  end.
Proof.
  intros Hgs. unfold handle, POST, do_POST, try_route, bind, pure, ret.
  cbn. rewrite Hgs. cbn.
  destruct (make_move gs a w) as [[[e | v] a'] w']; reflexivity.
Qed.

Lemma post_game_start (data gs : json) (a : A) (w : world) :
  py_get data "gameState" (JObj []) = ok gs ->
  handle (POST "/game-start" data) a w =
  match on_game_start gs a w with
  | (inr _, a', w') => (JsonResponse 200 status_ok, a', w')
  | (inl e, a', w') => (_send_error 500 (str e), a', w')
  end.
Proof.
  intros Hgs. unfold handle, POST, do_POST, try_route, bind, pure, ret.
  cbn. rewrite Hgs. cbn.
  destruct (on_game_start gs a w) as [[[e | v] a'] w']; reflexivity.
Qed.

Lemma post_game_end (data res : json) (a : A) (w : world) :
  py_get data "result" (JObj []) = ok res ->
  handle (POST "/game-end" data) a w =
  match on_game_end res a w with
  | (inr _, a', w') => (JsonResponse 200 status_ok, a', w')
  | (inl e, a', w') => (_send_error 500 (str e), a', w')
  end.
Proof.
  intros Hres. unfold handle, POST, do_POST, try_route, bind, pure, ret.
  cbn. rewrite Hres. cbn.
  destruct (on_game_end res a w) as [[[e | v] a'] w']; reflexivity.
Qed.

(** A request whose body cannot be read as a JSON object never reaches
    the agent. *)
Lemma post_unreadable (r : request) (e : exn) (a : A) (w : world) :
  command r = "POST" ->
  is_route r = true ->
  (payload r = inl e
   \/ exists data, payload r = ok data
                   /\ (forall d, data <> JObj d)
                   /\ e = AttributeError (type_name data) "get") ->
  handle r a w = (_send_error 500 (str e), a, w).
Proof.
  intros Hc Hr Hp. unfold is_route in Hr. unfold handle. rewrite Hc in *.
  cbn in Hr |- *. unfold do_POST, try_route, bind, pure.
  assert (Hget : forall k,
    match (match payload r with
           | inl e0 => (inl e0, a, w)
           | inr x => (py_get x k (JObj []), a, w)
           end) with
    | (inl e0, s', w') => @inl exn json e0 = inl e /\ s' = a /\ w' = w
    | (inr _, _, _) => False
    end).
  { intros k. destruct Hp as [-> | (data & -> & Hnd & ->)]; [easy |].
    destruct data; cbn; try easy. now destruct (Hnd fields). }
  destruct (path r =? "/move")%string.
  { specialize (Hget "gameState").
    destruct (payload r) as [e0 | x]; cbn in *.
    - destruct Hget as (Heq & _). now inversion Heq.
    - destruct (py_get x "gameState" (JObj [])); cbn in *; [|easy].
      destruct Hget as (Heq & _). now inversion Heq. }
  destruct (path r =? "/game-start")%string.
  { specialize (Hget "gameState").
    destruct (payload r) as [e0 | x]; cbn in *.
    - destruct Hget as (Heq & _). now inversion Heq.
    - destruct (py_get x "gameState" (JObj [])); cbn in *; [|easy].
      destruct Hget as (Heq & _). now inversion Heq. }
  destruct (path r =? "/game-end")%string; [| discriminate].
  specialize (Hget "result").
  destruct (payload r) as [e0 | x]; cbn in *.
  - destruct Hget as (Heq & _). now inversion Heq.
  - destruct (py_get x "result" (JObj [])); cbn in *; [|easy].
    destruct Hget as (Heq & _). now inversion Heq.
Qed.
End Dispatch.

(** C7. Whenever the agent call behind [POST /move], [POST /game-start] or
    [POST /game-end] raises an exception [e], the route answers status 500
    with the JSON body [{"error": str(e)}], the agent and the environment
    stay as the call left them, and the requests that follow are served
    from that state. *)
Theorem agent_errors_become_500
    {A : Type} `{Agent A} (a a' : A) (w w' : world)
    (data arg : json) (e : exn) (rest : list request) :
  let failure := JsonResponse 500 (JObj [("error", JStr (str e))]) in
  let continues (r : request) :=
    handle r a w = (failure, a', w') /\
    serve (r :: rest) a w =
      (let '(resps, a'', w'') := serve rest a' w' in
       (failure :: resps, a'', w'')) in
  (py_get data "gameState" (JObj []) = ok arg ->
   make_move arg a w = (inl e, a', w') ->
   continues (POST "/move" data)) /\
  (py_get data "gameState" (JObj []) = ok arg ->
   on_game_start arg a w = (inl e, a', w') ->
   continues (POST "/game-start" data)) /\
  (py_get data "result" (JObj []) = ok arg ->
   on_game_end arg a w = (inl e, a', w') ->
   continues (POST "/game-end" data)).
Proof.
  cbv zeta.
  split; [| split]; intros Harg Hcall; split.
  1, 2: rewrite ?serve_cons, (post_move _ _ _ _ Harg), Hcall; reflexivity.
  1, 2: rewrite ?serve_cons, (post_game_start _ _ _ _ Harg), Hcall; reflexivity.
  1, 2: rewrite ?serve_cons, (post_game_end _ _ _ _ Harg), Hcall; reflexivity.
Qed.

(** The default chess agent asked to move with no valid move: the
    [ValueError] is rendered and [/health] is served next. *)
Lemma agent_errors_become_500_witness :
  let a : ChessAgent := mkAgentBase "first" "" in
  let w := constant_world 0 (ok "") in
  let data := JObj [("gameState", JObj [("validMoves", JArr [])])] in
  serve [POST "/move" data; GET "/health"] a w =
  ([JsonResponse 500 (JObj [("error", JStr "No valid moves available")]);
    JsonResponse 200 status_ok], a, w).
Proof.
  intros a w data.
  pose proof (agent_errors_become_500 a a w w data
                (JObj [("validMoves", JArr [])])
                (ValueError "No valid moves available")
                [GET "/health"]) as (Hmove & _).
  destruct (Hmove eq_refl eq_refl) as (_ & Hserve).
  exact Hserve.
Defined.

(** ** Requests without a usable game state *)

(** C1. [POST /move] with a game state whose [validMoves] is the empty list
    is answered with status 500 and a non-empty [error] string (never
    status 200), by every agent class of the SDK and of the examples, and
    the [GET /health] that follows is answered [200 {"status": "ok"}]. *)
Theorem empty_valid_moves_rejected
    (fields gs : list (string * json)) (w : world) :
  lookup "gameState" fields = Some (JObj gs) ->
  lookup "validMoves" gs = Some (JArr []) ->
  let rs := [POST "/move" (JObj fields); GET "/health"] in
  let error msg := JsonResponse 500 (JObj [("error", JStr msg)]) in
  let health := JsonResponse 200 (JObj [("status", JStr "ok")]) in
  (forall a : ChessAgent,
      serve rs a w = ([error "No valid moves available"; health], a, w)) /\
  (forall a : SimpleChessBot,
      serve rs a w =
      ([error "No valid moves!"; health],
       mkSimpleChessBot (simple_base a) (move_count a + 1) (trash_talk_lines a),
       w)) /\
  (forall a : StockfishBot,
      serve rs a w = ([error "No valid moves!"; health], a, w)) /\
  (forall a : TriviaAgent,
      serve rs a w = ([error "Trivia agent not yet implemented"; health], a, w)) /\
  (forall a : DebateAgent,
      serve rs a w = ([error "Debate agent not yet implemented"; health], a, w)).
Proof.
  intros Hgs Hvm rs error health.
  assert (Hget : py_get (JObj fields) "gameState" (JObj []) = ok (JObj gs))
    by (cbn; now rewrite Hgs).
  split; [| split; [| split; [| split]]]; intros a; subst rs;
    rewrite serve_cons, (post_move _ _ _ _ Hget).
  - cbn. unfold ChessAgent_make_move, bind, pure, throw. cbn.
    rewrite Hvm. reflexivity.
  - cbn. unfold SimpleChessBot_make_move, bind, pure, throw, get_self,
      set_move_count. cbn. rewrite Hvm. reflexivity.
  - cbn. unfold StockfishBot_make_move, bind, pure, throw. cbn.
    rewrite Hvm. reflexivity.
  - reflexivity.
  - reflexivity.
Qed.

Lemma empty_valid_moves_rejected_witness :
  fst (fst (serve [POST "/move"
                     (JObj [("gameState", JObj [("validMoves", JArr [])])]);
                   GET "/health"]
              SimpleChessBot_init (constant_world 3 (ok "")))) =
  [JsonResponse 500 (JObj [("error", JStr "No valid moves!")]);
   JsonResponse 200 (JObj [("status", JStr "ok")])].
Proof.
  pose proof (empty_valid_moves_rejected
                [("gameState", JObj [("validMoves", JArr [])])]
                [("validMoves", JArr [])]
                (constant_world 3 (ok "")) eq_refl eq_refl) as (_ & Hsimple & _).
  rewrite (Hsimple SimpleChessBot_init). reflexivity.
Defined.

(** C2, as the code has it. A body that is a JSON object without the
    expected key is not refused: the route calls the agent with the empty
    object [{}] and answers with the outcome of that call. Only a body
    that is not a JSON object is refused with status 500 before the agent
    is reached. *)
Theorem missing_key_defaults_to_empty_object
    {A : Type} `{Agent A} (a : A) (w : world) :
  (forall fields,
      lookup "gameState" fields = None ->
      handle (POST "/move" (JObj fields)) a w =
        match make_move (JObj []) a w with
        | (inr v, a', w') => (JsonResponse 200 v, a', w')
        | (inl e, a', w') => (JsonResponse 500 (JObj [("error", JStr (str e))]), a', w')
        end
      /\
      handle (POST "/game-start" (JObj fields)) a w =
        match on_game_start (JObj []) a w with
        | (inr _, a', w') => (JsonResponse 200 status_ok, a', w')
        | (inl e, a', w') => (JsonResponse 500 (JObj [("error", JStr (str e))]), a', w')
        end) /\
  (forall fields,
      lookup "result" fields = None ->
      handle (POST "/game-end" (JObj fields)) a w =
        match on_game_end (JObj []) a w with
        | (inr _, a', w') => (JsonResponse 200 status_ok, a', w')
        | (inl e, a', w') => (JsonResponse 500 (JObj [("error", JStr (str e))]), a', w')
        end) /\
  (forall data path,
      (forall fields, data <> JObj fields) ->
      In path ["/move"; "/game-start"; "/game-end"] ->
      handle (POST path data) a w =
        (JsonResponse 500
           (JObj [("error", JStr (str (AttributeError (type_name data) "get")))]),
         a, w)).
Proof.
  split; [| split].
  - intros fields Hnone.
    assert (Hget : py_get (JObj fields) "gameState" (JObj []) = ok (JObj []))
      by (cbn; now rewrite Hnone).
    now rewrite (post_move _ _ _ _ Hget), (post_game_start _ _ _ _ Hget).
  - intros fields Hnone.
    assert (Hget : py_get (JObj fields) "result" (JObj []) = ok (JObj []))
      by (cbn; now rewrite Hnone).
    now rewrite (post_game_end _ _ _ _ Hget).
  - intros data path Hnd Hin.
    apply post_unreadable.
    + reflexivity.
    + cbn in Hin. destruct Hin as [<- | [<- | [<- | []]]]; reflexivity.
    + right. exists data. repeat split. exact Hnd.
Qed.

Lemma missing_key_defaults_to_empty_object_witness :
  let w := constant_world 0 (ok "") in
  handle (POST "/move" (JObj [("fen", JStr "8/8/8/8/8/8/8/8 w - - 0 1")]))
    SimpleChessBot_init w =
  (JsonResponse 500 (JObj [("error", JStr "No valid moves!")]),
   mkSimpleChessBot (simple_base SimpleChessBot_init) 1
     (trash_talk_lines SimpleChessBot_init), w)
  /\
  handle (POST "/game-end" (JArr [])) SimpleChessBot_init w =
  (JsonResponse 500
     (JObj [("error", JStr "'list' object has no attribute 'get'")]),
   SimpleChessBot_init, w).
Proof.
  intros w.
  pose proof (missing_key_defaults_to_empty_object SimpleChessBot_init w)
    as (Hstate & _ & Hbad).
  split.
  - destruct (Hstate [("fen", JStr "8/8/8/8/8/8/8/8 w - - 0 1")] eq_refl)
      as (Hmove & _).
    rewrite Hmove. reflexivity.
  - rewrite (Hbad (JArr []) "/game-end").
    + reflexivity.
    + intros fields Heq. discriminate Heq.
    + cbn. tauto.
Defined.

(** C2 as stated fails: with a body [{}], [POST /game-start] is answered
    200 and [POST /move] runs the heuristic agent's [make_move], which
    advances its move counter before it raises. *)
Lemma missing_key_is_not_refused :
  let w := constant_world 0 (ok "") in
  lookup "gameState" ([] : list (string * json)) = None /\
  handle (POST "/game-start" (JObj [])) SimpleChessBot_init w =
    (JsonResponse 200 (JObj [("status", JStr "ok")]), SimpleChessBot_init, w) /\
  move_count SimpleChessBot_init = 0 /\
  move_count (snd (fst (handle (POST "/move" (JObj [])) SimpleChessBot_init w)))
    = 1.
Proof. repeat split. Qed.

(** ** The default chess agent *)

(** C10. On a game state whose [validMoves] list starts with a chess move,
    [ChessAgent.make_move] answers with exactly one key, [action], built
    from that first move: its [from], its [to], and [promotion], which is
    [null] when the move has none. There is no [trashTalk] key, and the
    agent is left unchanged. *)
Theorem default_agent_plays_first_move
    (a : ChessAgent) (w : world) (gs : list (string * json))
    (first : list (string * json)) (others : list json) (from to : json) :
  lookup "validMoves" gs = Some (JArr (JObj first :: others)) ->
  lookup "from" first = Some from ->
  lookup "to" first = Some to ->
  let promotion :=
    match lookup "promotion" first with Some p => p | None => JNull end in
  let response :=
    [("action", JObj [("from", from); ("to", to); ("promotion", promotion)])] in
  make_move (JObj gs) a w = (ok (JObj response), a, w) /\
  lookup "trashTalk" response = None.
Proof.
  intros Hvm Hfrom Hto promotion response. split; [| reflexivity].
  cbn. unfold ChessAgent_make_move, bind, pure, ret, throw. cbn.
  rewrite Hvm. cbn. rewrite Hfrom, Hto. reflexivity.
Qed.

Lemma default_agent_plays_first_move_witness :
  make_move capture_scenario (mkAgentBase "first" "" : ChessAgent)
    (constant_world 1 (ok "")) =
  (ok (JObj [("action", JObj [("from", JStr "e2"); ("to", JStr "e4");
                              ("promotion", JNull)])]),
   mkAgentBase "first" "", constant_world 1 (ok "")).
Proof.
  exact (proj1 (default_agent_plays_first_move
                  (mkAgentBase "first" "") (constant_world 1 (ok ""))
                  [("validMoves", JArr [e2e4; dxe5])]
                  [("from", JStr "e2"); ("to", JStr "e4"); ("san", JStr "e4")]
                  [dxe5] (JStr "e2") (JStr "e4") eq_refl eq_refl eq_refl)).
Defined.

(** ** Stability of the game type *)

(** C9. [game_type] is the fixed string of the agent's class, non-empty,
    whatever [make_move], [on_game_start] and [on_game_end] calls were
    made on the agent in between: ["chess"] for [ChessAgent] and the two
    example bots, ["trivia"] for [TriviaAgent], ["debate"] for
    [DebateAgent]. *)
Theorem game_type_is_stable (cs : list call) (w : world) :
  (forall a : ChessAgent,
      game_type a = "chess" /\ game_type (fst (run_calls cs a w)) = game_type a) /\
  (forall a : TriviaAgent,
      game_type a = "trivia" /\ game_type (fst (run_calls cs a w)) = game_type a) /\
  (forall a : DebateAgent,
      game_type a = "debate" /\ game_type (fst (run_calls cs a w)) = game_type a) /\
  (forall a : SimpleChessBot,
      game_type a = "chess" /\ game_type (fst (run_calls cs a w)) = game_type a) /\
  (forall a : StockfishBot,
      game_type a = "chess" /\ game_type (fst (run_calls cs a w)) = game_type a) /\
  "chess" <> "" /\ "trivia" <> "" /\ "debate" <> "".
Proof.
  repeat split; discriminate.
Qed.

(** ** Commentary *)

Lemma to_dict_without_commentary (act : json) :
  to_dict (mkMoveResponse act None) = [("action", act)] /\
  to_dict (mkMoveResponse act (Some "")) = [("action", act)].
Proof. split; reflexivity. Qed.

Lemma to_dict_with_commentary (act : json) (t : string) :
  t <> "" ->
  to_dict (mkMoveResponse act (Some t)) = [("action", act); ("trashTalk", JStr t)].
Proof.
  intros Ht. unfold to_dict. cbn.
  destruct (String.eqb_spec t ""); [contradiction | reflexivity].
Qed.

(** C3, on the heuristic agent. When [random.choice] draws one of the two
    [None] entries of [trash_talk_lines], the body sent for [POST /move]
    carries the key [trashTalk] with the value [null]: the response does
    not go through [to_dict], which would have left the key out. *)
Theorem heuristic_agent_sends_null_commentary :
  let w := constant_world 6 (ok "") in
  fst (fst (handle (POST "/move" (JObj [("gameState", capture_scenario)]))
              SimpleChessBot_init w)) =
  JsonResponse 200
    (JObj [("action", JObj [("from", JStr "d2"); ("to", JStr "d4");
                            ("promotion", JNull)]);
           ("trashTalk", JNull)]).
Proof. reflexivity. Qed.

(** ** The heuristic agent's selection *)

Lemma bind_ok {S A B} (m : Py S A) (k : A -> Py S B)
    (s : S) (w : world) (x : A) (s' : S) (w' : world) :
  m s w = (ok x, s', w') -> bind m k s w = k x s' w'.
Proof. intros Hm. unfold bind. now rewrite Hm. Qed.

Lemma comprehension_filter (p : json -> result bool) (ms : list json) :
  (forall m, In m ms -> exists b, p m = ok b) ->
  comprehension p ms = ok (filter (holds p) ms).
Proof.
  induction ms as [| m ms IH]; intros Hp; [reflexivity |].
  cbn. destruct (Hp m (or_introl eq_refl)) as [b Hb].
  unfold holds at 1. rewrite Hb. cbn.
  rewrite IH by (intros m' Hin; apply Hp; now right).
  reflexivity.
Qed.

Lemma truthy_filter (f : json -> bool) (ms : list json) :
  truthy (JArr (filter f ms)) = existsb f ms.
Proof.
  induction ms as [| m ms IH]; [reflexivity |].
  cbn. destruct (f m); [reflexivity | exact IH].
Qed.

Lemma random_choice_list {S} (l : list json) (s : S) (w : world) :
  l <> [] ->
  exists m,
    nth_error l (Nat.modulo (rng w 0%nat) (List.length l)) = Some m /\
    In m l /\
    random_choice (JArr l) s w = (ok m, s, mkWorld (shift (rng w)) (engine w)).
Proof.
  intros Hne.
  assert (Hlen : (List.length l <> 0)%nat) by (destruct l; [contradiction | discriminate]).
  pose proof (Nat.mod_upper_bound (rng w 0%nat) _ Hlen) as Hlt.
  destruct (nth_error l (Nat.modulo (rng w 0%nat) (List.length l))) as [m |] eqn:Hnth.
  - exists m. split; [reflexivity |]. split; [eapply nth_error_In; eauto |].
    unfold random_choice. cbn.
    destruct (List.length l) eqn:Hl; [contradiction |].
    cbn in *. now rewrite Hnth.
  - apply nth_error_None in Hnth. lia.
Qed.

Lemma chess_move_fields (m : json) :
  chess_move m = true ->
  exists d from to san,
    m = JObj d /\ lookup "from" d = Some (JStr from) /\
    lookup "to" d = Some (JStr to) /\ lookup "san" d = Some (JStr san).
Proof.
  destruct m as [| | | | | | d]; try discriminate. cbn.
  destruct (lookup "from" d) as [[]|] eqn:Hf; try discriminate.
  destruct (lookup "to" d) as [[]|] eqn:Ht; try discriminate.
  destruct (lookup "san" d) as [[]|] eqn:Hs; try discriminate.
  intros _. eauto 10.
Qed.

Lemma chess_move_tests (m : json) :
  chess_move m = true ->
  (exists b, is_capture m = ok b) /\ (exists b, is_check m = ok b) /\
  (exists b, is_center m = ok b).
Proof.
  intros Hm. destruct (chess_move_fields m Hm) as (d & f & t & s & -> & Hf & Ht & Hs).
  unfold is_capture, is_check, is_center, san_has. cbn. rewrite Hs, Ht. cbn.
  repeat split; eauto.
  destruct (contains_char "+" s); eauto.
Qed.

Lemma select_where_filter {S} (p : json -> result bool) (ms : list json)
    (s : S) (w : world) :
  (forall m, In m ms -> exists b, p m = ok b) ->
  select_where p (JArr ms) s w = (ok (filter (holds p) ms), s, w).
Proof.
  intros Hp. unfold select_where, pure. cbn.
  now rewrite (comprehension_filter p ms Hp).
Qed.

(** The tier a selected move must belong to, by descending priority. *)
Lemma select_move_tiers (self : SimpleChessBot) (w : world)
    (moves : list json) (gs : json) :
  moves <> [] ->
  forallb chess_move moves = true ->
  exists m,
    _select_move (JArr moves) gs self w =
      (ok m, self, mkWorld (shift (rng w)) (engine w)) /\
    In m moves /\
    (if existsb (holds is_capture) moves then holds is_capture m = true
     else if existsb (holds is_check) moves then holds is_check m = true
     else if (move_count self <? 10) && existsb (holds is_center) moves
          then holds is_center m = true
     else True).
Proof.
  intros Hne Hall. rewrite forallb_forall in Hall.
  assert (Hcap : forall m, In m moves -> exists b, is_capture m = ok b)
    by (intros m Hin; apply chess_move_tests; auto).
  assert (Hchk : forall m, In m moves -> exists b, is_check m = ok b)
    by (intros m Hin; apply chess_move_tests; auto).
  assert (Hctr : forall m, In m moves -> exists b, is_center m = ok b)
    by (intros m Hin; apply chess_move_tests; auto).
  unfold _select_move.
  rewrite (bind_ok _ _ _ _ _ _ _ (select_where_filter is_capture moves self w Hcap)).
  rewrite truthy_filter.
  destruct (existsb (holds is_capture) moves) eqn:Ecap.
  { destruct (random_choice_list (filter (holds is_capture) moves) self w)
      as (m & _ & Hin & Hrc).
    - intros Hnil. rewrite <- truthy_filter, Hnil in Ecap. discriminate.
    - apply filter_In in Hin. exists m. rewrite Hrc. tauto. }
  rewrite (bind_ok _ _ _ _ _ _ _ (select_where_filter is_check moves self w Hchk)).
  rewrite truthy_filter.
  destruct (existsb (holds is_check) moves) eqn:Echk.
  { destruct (random_choice_list (filter (holds is_check) moves) self w)
      as (m & _ & Hin & Hrc).
    - intros Hnil. rewrite <- truthy_filter, Hnil in Echk. discriminate.
    - apply filter_In in Hin. exists m. rewrite Hrc. tauto. }
  rewrite (bind_ok get_self _ self w self self w eq_refl).
  destruct (move_count self <? 10) eqn:Ewin; cbn [andb].
  - rewrite (bind_ok _ _ _ _ _ _ _ (select_where_filter is_center moves self w Hctr)).
    rewrite truthy_filter.
    destruct (existsb (holds is_center) moves) eqn:Ectr.
    + destruct (random_choice_list (filter (holds is_center) moves) self w)
        as (m & _ & Hin & Hrc).
      * intros Hnil. rewrite <- truthy_filter, Hnil in Ectr. discriminate.
      * apply filter_In in Hin. exists m. rewrite Hrc. tauto.
    + destruct (random_choice_list moves self w Hne) as (m & _ & Hin & Hrc).
      exists m. rewrite Hrc. tauto.
  - destruct (random_choice_list moves self w Hne) as (m & _ & Hin & Hrc).
    exists m. rewrite Hrc. tauto.
Qed.

(** C5. Called with [n] moves already made in the game, on a non-empty
    list of chess moves, the heuristic agent answers with the [from], [to]
    and [promotion] of a move [m] of the list such that: [m] is a capture
    ([x] in its SAN) if the list has one; otherwise [m] gives check or mate
    ([+] or [#]) if the list has such a move; otherwise, while the counter
    after this move is below 10, [m] lands on one of [e4 d4 e5 d5 c4 f4] if
    some move does; otherwise [m] is any move of the list. On the two-move
    scenario the answer is the capture [d2 -> d4], for every random source
    and every value of the counter. *)
Theorem heuristic_selection_priority (n : Z) (w : world) :
  let self := mkSimpleChessBot (simple_base SimpleChessBot_init) n
                (trash_talk_lines SimpleChessBot_init) in
  let self' := mkSimpleChessBot (simple_base SimpleChessBot_init) (n + 1)
                 (trash_talk_lines SimpleChessBot_init) in
  (forall gs moves,
      lookup "validMoves" gs = Some (JArr moves) ->
      moves <> [] ->
      forallb chess_move moves = true ->
      exists d from to commentary w',
        In (JObj d) moves /\
        lookup "from" d = Some from /\ lookup "to" d = Some to /\
        make_move (JObj gs) self w =
          (ok (JObj [("action",
                      JObj [("from", from); ("to", to);
                            ("promotion",
                             match lookup "promotion" d with
                             | Some p => p
                             | None => JNull
                             end)]);
                     ("trashTalk", commentary)]), self', w') /\
        (if existsb (holds is_capture) moves then
           holds is_capture (JObj d) = true
         else if existsb (holds is_check) moves then
           holds is_check (JObj d) = true
         else if (n + 1 <? 10) && existsb (holds is_center) moves then
           holds is_center (JObj d) = true
         else True)) /\
  (exists commentary w',
      make_move capture_scenario self w =
        (ok (JObj [("action",
                    JObj [("from", JStr "d2"); ("to", JStr "d4");
                          ("promotion", JNull)]);
                   ("trashTalk", commentary)]), self', w')).
Proof.
  intros self self'.
  assert (General : forall gs moves,
      lookup "validMoves" gs = Some (JArr moves) ->
      moves <> [] ->
      forallb chess_move moves = true ->
      exists d from to commentary w',
        In (JObj d) moves /\
        lookup "from" d = Some from /\ lookup "to" d = Some to /\
        make_move (JObj gs) self w =
          (ok (JObj [("action",
                      JObj [("from", from); ("to", to);
                            ("promotion",
                             match lookup "promotion" d with
                             | Some p => p
                             | None => JNull
                             end)]);
                     ("trashTalk", commentary)]), self', w') /\
        (if existsb (holds is_capture) moves then
           holds is_capture (JObj d) = true
         else if existsb (holds is_check) moves then
           holds is_check (JObj d) = true
         else if (n + 1 <? 10) && existsb (holds is_center) moves then
           holds is_center (JObj d) = true
         else True)).
  { intros gs moves Hvm Hne Hall.
    destruct (select_move_tiers self' w moves (JObj gs) Hne Hall)
      as (m & Hsel & Hin & Htier).
    rewrite forallb_forall in Hall.
    destruct (chess_move_fields m (Hall m Hin)) as (d & f & t & s & -> & Hf & Ht & _).
    destruct (random_choice_list (trash_talk_lines SimpleChessBot_init) self'
                (mkWorld (shift (rng w)) (engine w)))
      as (c & _ & _ & Hrc); [discriminate |].
    exists d, (JStr f), (JStr t), c. eexists.
    repeat split; eauto.
    cbn [make_move SimpleChessBot_Agent]. unfold SimpleChessBot_make_move.
    rewrite (bind_ok get_self _ self w self self w eq_refl).
    rewrite (bind_ok (set_move_count _) _ self w tt self' w eq_refl).
    unfold pure at 1.
    erewrite bind_ok by (cbn; rewrite Hvm; reflexivity).
    replace (negb (truthy (JArr moves))) with false
      by (destruct moves; [contradiction | reflexivity]).
    rewrite (bind_ok _ _ _ _ _ _ _ Hsel).
    erewrite bind_ok by reflexivity.
    rewrite (bind_ok _ _ _ _ _ _ _ Hrc).
    unfold pure, bind, ret. cbn. rewrite Hf, Ht. reflexivity. }
  split; [exact General |].
  destruct (General [("validMoves", JArr [e2e4; dxe5])] [e2e4; dxe5]
              eq_refl ltac:(discriminate) eq_refl)
    as (d & f & t & c & w' & Hin & Hf & Ht & Hmove & Htier).
  cbn in Htier. exists c, w'.
  destruct Hin as [Heq | [Heq | []]]; inversion Heq; subst d.
  - discriminate Htier.
  - cbn in Hf, Ht. inversion Hf; inversion Ht; subst. exact Hmove.
Qed.

Lemma heuristic_selection_priority_witness :
  exists commentary w',
    make_move
      (JObj [("validMoves",
              JArr [JObj [("from", JStr "g1"); ("to", JStr "f3"); ("san", JStr "Nf3")];
                    JObj [("from", JStr "d1"); ("to", JStr "h5"); ("san", JStr "Qh5+")];
                    JObj [("from", JStr "e2"); ("to", JStr "e4"); ("san", JStr "e4")]])])
      SimpleChessBot_init (constant_world 5 (ok "")) =
    (ok (JObj [("action", JObj [("from", JStr "d1"); ("to", JStr "h5");
                                ("promotion", JNull)]);
               ("trashTalk", commentary)]),
     mkSimpleChessBot (simple_base SimpleChessBot_init) 1
       (trash_talk_lines SimpleChessBot_init), w').
Proof.
  destruct (heuristic_selection_priority 0 (constant_world 5 (ok "")))
    as (General & _).
  destruct (General
     [("validMoves",
       JArr [JObj [("from", JStr "g1"); ("to", JStr "f3"); ("san", JStr "Nf3")];
             JObj [("from", JStr "d1"); ("to", JStr "h5"); ("san", JStr "Qh5+")];
             JObj [("from", JStr "e2"); ("to", JStr "e4"); ("san", JStr "e4")]])]
     _ eq_refl ltac:(discriminate) eq_refl)
    as (d & f & t & c & w' & Hin & Hf & Ht & Hmove & Htier).
  exists c, w'.
  cbn in Htier.
  destruct Hin as [Heq | [Heq | [Heq | []]]]; inversion Heq; subst d;
    try discriminate Htier.
  cbn in Hf, Ht. inversion Hf; inversion Ht; subst. exact Hmove.
Defined.

(** ** The engine-backed agent *)

Lemma get_stockfish_move_outcome (fen : json) (self : StockfishBot) (w : world) :
  _get_stockfish_move fen self w =
  (match engine w 0%nat with
   | inl e => inl e
   | inr out => parse_bestmove (split_on newline out)
   end, self, mkWorld (rng w) (shift (engine w))).
Proof.
  unfold _get_stockfish_move, bind, run_engine, pure.
  destruct (engine w 0%nat); reflexivity.
Qed.

Lemma winning_commentary (path : string) (dep : Z) (s : StockfishBot) (w : world) :
  exists c,
    random_choice (JArr (winning_trash_talk (StockfishBot_init path dep))) s w =
    (ok (JStr c), s, mkWorld (shift (rng w)) (engine w)) /\ c <> "".
Proof.
  destruct (random_choice_list (winning_trash_talk (StockfishBot_init path dep)) s w)
    as (c & _ & Hin & Hrc); [discriminate |].
  cbn in Hin.
  destruct Hin as [<- | [<- | [<- | []]]]; eexists; (split; [exact Hrc | discriminate]).
Qed.

(** An answer such as [bestmove (none)] is not seen as a failure: the
    second word is cut into squares whatever it is. *)
Lemma bestmove_is_sliced_unchecked :
  parse_bestmove (split_on newline "bestmove (none)") =
  ok (JObj [("from", JStr "(n"); ("to", JStr "on"); ("promotion", JStr "e")]).
Proof. reflexivity. Qed.

Lemma squares_fields (m : json) :
  has_squares m = true ->
  exists d from to,
    m = JObj d /\ lookup "from" d = Some from /\ lookup "to" d = Some to.
Proof.
  destruct m as [| | | | | | d]; try discriminate. cbn.
  destruct (lookup "from" d) as [f |] eqn:Hf; try discriminate.
  destruct (lookup "to" d) as [t |] eqn:Ht; try discriminate.
  intros _. eauto 10.
Qed.

(** What the fallback does. On a non-empty list of moves that have [from]
    and [to], [make_move] never raises; and whenever
    [_get_stockfish_move] raises (starting or talking to the process
    raises, as on a timeout or a crash, or no output line starts with
    [bestmove] and has a second word) the action is the [from] and [to] of
    the valid move picked by [random.choice]. *)
Lemma engine_exception_falls_back
    (path : string) (dep : Z) (w : world)
    (gs : list (string * json)) (moves : list json) :
  let self := StockfishBot_init path dep in
  lookup "validMoves" gs = Some (JArr moves) ->
  moves <> [] ->
  forallb has_squares moves = true ->
  (exists act commentary w',
      commentary <> "" /\
      make_move (JObj gs) self w =
        (ok (JObj [("action", act); ("trashTalk", JStr commentary)]), self, w')) /\
  (forall e,
      engine w 0%nat = inl e \/
      (exists out, engine w 0%nat = inr out /\
                   parse_bestmove (split_on newline out) = inl e) ->
      exists d from to commentary w',
        nth_error moves (Nat.modulo (rng w 0%nat) (List.length moves))
          = Some (JObj d) /\
        lookup "from" d = Some from /\ lookup "to" d = Some to /\
        make_move (JObj gs) self w =
          (ok (JObj [("action", JObj [("from", from); ("to", to)]);
                     ("trashTalk", JStr commentary)]), self, w')).
Proof.
  intros self Hvm Hne Hall.
  set (fen := match lookup "fen" gs with Some v => v | None => JStr "" end).
  set (w1 := mkWorld (rng w) (shift (engine w))).
  assert (Hstart :
    make_move (JObj gs) self w =
    bind (try_except (_get_stockfish_move fen)
            (fun _ =>
               best_move <- random_choice (JArr moves) ;;
               from <- pure (py_item best_move "from") ;;
               to <- pure (py_item best_move "to") ;;
               ret (JObj [("from", from); ("to", to)]))%py)
         (fun best_move =>
            self <- get_self ;;
            trash_talk <- random_choice (JArr (winning_trash_talk self)) ;;
            ret (JObj [("action", best_move); ("trashTalk", trash_talk)]))%py
         self w).
  { cbn [make_move StockfishBot_Agent]. unfold StockfishBot_make_move.
    unfold pure at 1. erewrite bind_ok by reflexivity.
    unfold pure at 1. erewrite bind_ok by (cbn; rewrite Hvm; reflexivity).
    replace (negb (truthy (JArr moves))) with false
      by (destruct moves; [contradiction | reflexivity]).
    reflexivity. }
  assert (Hfallback : forall e,
    fst (fst (_get_stockfish_move fen self w)) = inl e ->
    exists d from to commentary w',
      nth_error moves (Nat.modulo (rng w 0%nat) (List.length moves))
        = Some (JObj d) /\
      lookup "from" d = Some from /\ lookup "to" d = Some to /\
      commentary <> "" /\
      make_move (JObj gs) self w =
        (ok (JObj [("action", JObj [("from", from); ("to", to)]);
                   ("trashTalk", JStr commentary)]), self, w')).
  { intros e He. rewrite get_stockfish_move_outcome in He. cbn [fst] in He.
    destruct (random_choice_list moves self w1 Hne) as (m & Hnth & Hin & Hrc).
    rewrite forallb_forall in Hall.
    destruct (squares_fields m (Hall m Hin)) as (d & f & t & -> & Hf & Ht).
    destruct (winning_commentary path dep self (mkWorld (shift (rng w1)) (engine w1)))
      as (c & Hc & Hcne).
    exists d, f, t, c. eexists.
    repeat split; eauto.
    rewrite Hstart.
    erewrite bind_ok.
    2:{ unfold try_except. rewrite get_stockfish_move_outcome, He.
        erewrite bind_ok by exact Hrc.
        unfold pure, bind, ret. cbn. rewrite Hf, Ht. reflexivity. }
    erewrite bind_ok by reflexivity.
    erewrite bind_ok by exact Hc.
    reflexivity. }
  split.
  - destruct (fst (fst (_get_stockfish_move fen self w))) as [e | mv] eqn:Hout.
    + destruct (Hfallback e eq_refl) as (d & f & t & c & w' & _ & _ & _ & Hcne & Hmove).
      eauto 10.
    + rewrite get_stockfish_move_outcome in Hout. cbn [fst] in Hout.
      destruct (winning_commentary path dep self (mkWorld (shift (rng w1)) (engine w1)))
        as (c & Hc & Hcne).
      destruct (winning_commentary path dep self w1) as (c1 & Hc1 & Hcne1).
      exists mv, c1. eexists. split; [exact Hcne1 |].
      rewrite Hstart.
      erewrite bind_ok.
      2:{ unfold try_except. rewrite get_stockfish_move_outcome, Hout. reflexivity. }
      erewrite bind_ok by reflexivity.
      erewrite bind_ok by exact Hc1.
      reflexivity.
  - intros e He.
    destruct (Hfallback e) as (d & f & t & c & w' & H1 & H2 & H3 & _ & H4).
    + rewrite get_stockfish_move_outcome. cbn [fst].
      destruct He as [-> | (out & -> & ->)]; reflexivity.
    + eauto 10.
Qed.

(** The engine never answers within its 30 seconds: [communicate] raises
    [TimeoutExpired] and the agent still moves. *)
Lemma fallback_on_timeout :
  let timeout :=
    OtherException "TimeoutExpired"
      "Command '['stockfish']' timed out after 30 seconds" in
  exists commentary w',
    make_move capture_scenario (StockfishBot_init "stockfish" 15)
      (constant_world 1 (inl timeout)) =
    (ok (JObj [("action", JObj [("from", JStr "d2"); ("to", JStr "d4")]);
               ("trashTalk", JStr commentary)]),
     StockfishBot_init "stockfish" 15, w').
Proof.
  intros timeout.
  destruct (engine_exception_falls_back "stockfish" 15
              (constant_world 1 (inl timeout))
              [("validMoves", JArr [e2e4; dxe5])] [e2e4; dxe5]
              eq_refl ltac:(discriminate) eq_refl) as (_ & Hfail).
  destruct (Hfail timeout (or_introl eq_refl))
    as (d & f & t & c & w' & Hnth & Hf & Ht & Hmove).
  cbn in Hnth. inversion Hnth; subst d.
  cbn in Hf, Ht. inversion Hf; inversion Ht; subst.
  exists c, w'. exact Hmove.
Defined.

(** C6, where the code departs from it. The engine answers, but the word
    after [bestmove] is no move: [(none)], as an engine prints when it has
    no move to give, or a cut-off word. The loop takes any second word, so
    [_get_stockfish_move] does not raise, the fallback is not taken, and the
    action returned is that word cut in pieces: none of the valid moves
    [e2 -> e4] and [d2 -> d4]. *)
Theorem unusable_bestmove_is_played :
  let self := StockfishBot_init "stockfish" 15 in
  let action_for (out : string) :=
    match fst (fst (make_move capture_scenario self
                      (constant_world 0 (ok out)))) with
    | inr (JObj response) => lookup "action" response
    | _ => None
    end in
  action_for "bestmove (none)" =
    Some (JObj [("from", JStr "(n"); ("to", JStr "on"); ("promotion", JStr "e")]) /\
  action_for "bestmove e" =
    Some (JObj [("from", JStr "e"); ("to", JStr ""); ("promotion", JNull)]).
Proof. split; reflexivity. Qed.

(** ** Routes *)

(** C8, as the code has it. A [GET] or [POST] request that matches none of
    the five routes is answered [404 {"error": "Not found"}]. A request
    with any other method does not reach the routes: the handler class has
    no method for it and the inherited dispatch answers 501. *)
Theorem unmatched_route_not_found
    {A : Type} `{Agent A} (r : request) (a : A) (w : world) :
  is_route r = false ->
  (command r = "GET" \/ command r = "POST" ->
   handle r a w = (JsonResponse 404 (JObj [("error", JStr "Not found")]), a, w)) /\
  (command r <> "GET" -> command r <> "POST" ->
   exists message, handle r a w = (ErrorPage 501 message, a, w)).
Proof.
  intros Hroute. unfold is_route in Hroute. unfold handle. split.
  - intros [Hc | Hc]; rewrite Hc in *; cbn in Hroute |- *.
    + unfold do_GET.
      destruct (path r =? "/health")%string; [discriminate |].
      destruct (path r =? "/info")%string; [discriminate | reflexivity].
    + unfold do_POST.
      destruct (path r =? "/move")%string; [discriminate |].
      destruct (path r =? "/game-start")%string; [discriminate |].
      destruct (path r =? "/game-end")%string; [discriminate | reflexivity].
  - intros Hget Hpost.
    destruct (String.eqb_spec (command r) "GET"); [contradiction |].
    destruct (String.eqb_spec (command r) "POST"); [contradiction |].
    eauto.
Qed.

Lemma unmatched_route_not_found_witness :
  handle (GET "/unknown") SimpleChessBot_init (constant_world 0 (ok "")) =
  (JsonResponse 404 (JObj [("error", JStr "Not found")]),
   SimpleChessBot_init, constant_world 0 (ok "")).
Proof.
  exact (proj1 (unmatched_route_not_found (GET "/unknown") SimpleChessBot_init
                  (constant_world 0 (ok "")) eq_refl)
               (or_introl eq_refl)).
Defined.

(** C8 as stated fails: [PUT /health] matches no route and is answered
    501, not 404. *)
Lemma other_method_is_not_404 :
  let r := mkRequest "PUT" "/health" (ok JNull) in
  is_route r = false /\
  fst (fst (handle r SimpleChessBot_init (constant_world 0 (ok "")))) =
    ErrorPage 501 "Unsupported method ('PUT')" /\
  status_of (fst (fst (handle r SimpleChessBot_init (constant_world 0 (ok "")))))
    <> 404.
Proof. repeat split. discriminate. Qed.

(** ** Servers and the agent they dispatch to *)

(** X15. In every process that arises from constructing servers, running
    them and receiving requests, in any order, the request handler class
    has an agent whenever some server listens: no request is ever handled
    with [agent = None]. *)
Lemma listening_has_agent (p : process) :
  reachable p -> listening p <> [] -> AgentRequestHandler_agent p <> None.
Proof.
  induction 1 as [heap w | a pt p Hp IH | s bind p Hp IH | at_port r p Hp IH];
    cbn.
  - intros Hl. now contradiction Hl.
  - exact IH.
  - destruct bind; cbn; discriminate.
  - unfold process_request.
    destruct (existsb (Z.eqb at_port) (listening p)); [| exact IH].
    destruct (AgentRequestHandler_agent p) as [ref |] eqn:Hag;
      [| cbn; now rewrite Hag].
    destruct (nth_error (heap p) ref) as [[T C self] |];
      [| cbn; now rewrite Hag].
    destruct (handle r self (env p)) as [[resp self'] w']. cbn.
    intros _. discriminate.
Qed.

(** C4, as the code has it. Constructing a server leaves the process as it
    was, so it does not change what a listening server answers. Running a
    server does: [run] stores its agent in the class attribute of the
    request handler, which every server of the process reads, so from then
    on a request to a server that was already listening is answered by the
    agent of the server that ran last (also when that server failed to
    bind its port). *)
Theorem servers_dispatch_to_last_run_agent
    (p : process) (s1 s2 : AgentServer) (bind : result unit) (r : request) :
  In (port s1) (listening p) ->
  (forall a pt,
      process_request (port s1) r (snd (AgentServer_init a pt p)) =
      process_request (port s1) r p) /\
  (let p' := snd (AgentServer_run s2 bind p) in
   fst (process_request (port s1) r p') = own_agent_response s2 r p').
Proof.
  intros Hin. split; [reflexivity |].
  assert (Hl : forall l, In (port s1) l -> existsb (Z.eqb (port s1)) l = true).
  { intros l Hl. apply existsb_exists. exists (port s1). split; [exact Hl | apply Z.eqb_refl]. }
  unfold process_request, own_agent_response, AgentServer_run.
  destruct bind as [e | []]; cbn [snd listening heap env AgentRequestHandler_agent].
  - rewrite (Hl _ Hin).
    destruct (nth_error (heap p) (agent s2)) as [[T C self] |]; [| reflexivity].
    destruct (handle r self (env p)) as [[resp self'] w']. reflexivity.
  - rewrite (Hl (port s2 :: listening p) (or_intror Hin)).
    destruct (nth_error (heap p) (agent s2)) as [[T C self] |]; [| reflexivity].
    destruct (handle r self (env p)) as [[resp self'] w']. reflexivity.
Qed.

Lemma servers_dispatch_to_last_run_agent_witness :
  let s1 := mkAgentServer 0 8080 in
  let s2 := mkAgentServer 1 8081 in
  let p1 := snd (AgentServer_run s1 (ok tt) two_agents) in
  let p2 := snd (AgentServer_run s2 (ok tt) p1) in
  fst (process_request 8080 (GET "/info") p2) = Some (chess_info "second").
Proof.
  intros s1 s2 p1 p2.
  destruct (servers_dispatch_to_last_run_agent p1 s1 s2 (ok tt) (GET "/info")
              (or_introl eq_refl)) as (_ & Hrun).
  cbv zeta in Hrun. cbn [port s1] in Hrun. fold p2 in Hrun.
  rewrite Hrun. reflexivity.
Defined.

(** C4 as stated fails: the first server is constructed with the agent
    ["first"] and answers for it, until the second server runs; then the
    first server's port answers for ["second"]. *)
Lemma second_run_redirects_first_server :
  let '(s1, p0) := AgentServer_init 0 8080 two_agents in
  let '(s2, p0') := AgentServer_init 1 8081 p0 in
  let p1 := snd (AgentServer_run s1 (ok tt) p0') in
  let p2 := snd (AgentServer_run s2 (ok tt) p1) in
  agent s1 <> agent s2 /\
  fst (process_request (port s1) (GET "/info") p1) = Some (chess_info "first") /\
  own_agent_response s1 (GET "/info") p2 = Some (chess_info "first") /\
  fst (process_request (port s1) (GET "/info") p2) = Some (chess_info "second").
Proof. cbn. repeat split. discriminate. Qed.

(** * Further properties of the code *)

(** ** The request handler, for any agent *)

Section HandlerFacts.
Context {A : Type} `{Agent A}.

Lemma serve_app (rs1 rs2 : list request) (a : A) (w : world) :
  serve (rs1 ++ rs2)%list a w =
  let '(resps1, a1, w1) := serve rs1 a w in
  let '(resps2, a2, w2) := serve rs2 a1 w1 in
  ((resps1 ++ resps2)%list, a2, w2).
Proof.
  revert a w. induction rs1 as [| r rs1 IH]; intros a w.
  - cbn. now destruct (serve rs2 a w) as [[resps2 a2] w2].
  - cbn. destruct (handle r a w) as [[resp a'] w'].
    rewrite IH. destruct (serve rs1 a' w') as [[resps1 a1] w1].
    now destruct (serve rs2 a1 w1) as [[resps2 a2] w2].
Qed.

(** The agent and environment a request leaves behind are those of the
    agent call it leads to, if any. *)
Lemma handle_state (r : request) (a : A) (w : world) :
  (snd (fst (handle r a w)), snd (handle r a w)) =
  match call_of r with
  | Some c => run_call c a w
  | None => (a, w)
  end.
Proof.
  unfold handle, call_of.
  destruct (String.eqb_spec (command r) "GET") as [Hget | Hget].
  { rewrite Hget. cbn. unfold do_GET.
    destruct (path r =? "/health")%string; [reflexivity |].
    destruct (path r =? "/info")%string; reflexivity. }
  destruct (command r =? "POST")%string; [| reflexivity].
  unfold do_POST, try_route, bind, pure, ret.
  destruct (payload r) as [e | data].
  { destruct (path r =? "/move")%string; [reflexivity |].
    destruct (path r =? "/game-start")%string; [reflexivity |].
    destruct (path r =? "/game-end")%string; reflexivity. }
  destruct (path r =? "/move")%string.
  { destruct data; try reflexivity. cbn.
    destruct (make_move _ a w) as [[[e | v] a'] w']; reflexivity. }
  destruct (path r =? "/game-start")%string.
  { destruct data; try reflexivity. cbn.
    destruct (on_game_start _ a w) as [[[e | v] a'] w']; reflexivity. }
  destruct (path r =? "/game-end")%string.
  { destruct data; try reflexivity. cbn.
    destruct (on_game_end _ a w) as [[[e | v] a'] w']; reflexivity. }
  destruct data; reflexivity.
Qed.

Lemma serve_state (rs : list request) (a : A) (w : world) :
  (snd (fst (serve rs a w)), snd (serve rs a w)) = run_calls (calls_of rs) a w.
Proof.
  revert a w. induction rs as [| r rs IH]; intros a w; [reflexivity |].
  cbn [serve calls_of].
  pose proof (handle_state r a w) as Hr.
  destruct (handle r a w) as [[resp a'] w']. cbn [fst snd] in Hr.
  specialize (IH a' w').
  destruct (serve rs a' w') as [[resps a''] w'']. cbn [fst snd] in IH |- *.
  rewrite IH.
  destruct (call_of r) as [c |]; cbn [run_calls].
  - now rewrite <- Hr.
  - now inversion Hr.
Qed.

(** X1. The effect of a run of the server on the agent and on the
    environment is that of the agent calls its requests lead to, in the
    order of arrival, and of nothing else: [GET] requests, unknown paths,
    other methods and unreadable bodies cause no call. *)
Theorem serve_makes_the_calls_of_its_requests
    (rs : list request) (a : A) (w : world) :
  let '(_, a', w') := serve rs a w in
  (a', w') = run_calls (calls_of rs) a w.
Proof.
  pose proof (serve_state rs a w) as Hs.
  destruct (serve rs a w) as [[resps a'] w']. exact Hs.
Qed.

(** X2. [GET /health] is answered [200 {"status": "ok"}] after any history
    of requests, whatever they were and however they ended, and it leaves
    the agent and the environment as that history left them. *)
Theorem health_after_any_history (rs : list request) (a : A) (w : world) :
  serve (rs ++ [GET "/health"])%list a w =
  let '(resps, a', w') := serve rs a w in
  ((resps ++ [JsonResponse 200 (JObj [("status", JStr "ok")])])%list, a', w').
Proof.
  rewrite serve_app.
  destruct (serve rs a w) as [[resps a'] w']. reflexivity.
Qed.

(** X3. Once the inherited [parse_request] has accepted a request (its
    own 400, 414 and 505 answers come before and are not the subject here),
    the answer to it is one of four: status 200 with a JSON
    document, [404 {"error": "Not found"}], status 500 with a JSON object
    holding only an [error] string, or the inherited 501 page. Status 500
    is given only by the three [POST] routes, 404 only to [GET] and [POST]
    requests outside the routes, 501 only to other methods. *)
Theorem answers_are_200_404_500_501 (r : request) (a : A) (w : world) :
  let resp := fst (fst (handle r a w)) in
  (exists data, resp = JsonResponse 200 data /\ is_route r = true) \/
  (resp = JsonResponse 404 (JObj [("error", JStr "Not found")]) /\
   is_route r = false /\ (command r = "GET" \/ command r = "POST")) \/
  (exists msg, resp = JsonResponse 500 (JObj [("error", JStr msg)]) /\
               is_route r = true /\ command r = "POST") \/
  (exists page, resp = ErrorPage 501 page /\
                command r <> "GET" /\ command r <> "POST").
Proof.
  unfold handle, is_route.
  destruct (String.eqb_spec (command r) "GET") as [Hget | Hget].
  { rewrite Hget. cbn. unfold do_GET.
    destruct (path r =? "/health")%string;
      [left; eexists; split; reflexivity |].
    destruct (path r =? "/info")%string;
      [left; eexists; split; reflexivity |].
    right; left. cbn. auto. }
  destruct (String.eqb_spec (command r) "POST") as [Hpost | Hpost].
  2:{ right; right; right. eexists. repeat split; assumption. }
  rewrite Hpost. cbn. unfold do_POST, try_route, bind, pure, ret.
  destruct (path r =? "/move")%string.
  { cbn.
    destruct (payload r) as [e | data]; cbn;
      [right; right; left; eexists; repeat split |].
    destruct (py_get data "gameState" (JObj [])) as [e | gs]; cbn;
      [right; right; left; eexists; repeat split |].
    destruct (make_move gs a w) as [[[e | v] a'] w']; cbn;
      [right; right; left; eexists; repeat split |].
    left. eexists. split; reflexivity. }
  destruct (path r =? "/game-start")%string.
  { cbn.
    destruct (payload r) as [e | data]; cbn;
      [right; right; left; eexists; repeat split |].
    destruct (py_get data "gameState" (JObj [])) as [e | gs]; cbn;
      [right; right; left; eexists; repeat split |].
    destruct (on_game_start gs a w) as [[[e | v] a'] w']; cbn;
      [right; right; left; eexists; repeat split |].
    left. eexists. split; reflexivity. }
  destruct (path r =? "/game-end")%string.
  { cbn.
    destruct (payload r) as [e | data]; cbn;
      [right; right; left; eexists; repeat split |].
    destruct (py_get data "result" (JObj [])) as [e | res]; cbn;
      [right; right; left; eexists; repeat split |].
    destruct (on_game_end res a w) as [[[e | v] a'] w']; cbn;
      [right; right; left; eexists; repeat split |].
    left. eexists. split; reflexivity. }
  right; left. cbn. auto.
Qed.
End HandlerFacts.

(** X4. A [POST] to one of the three routes whose body cannot be read (the
    length header, the decoding or [json.loads] raises [e]) is answered
    [500 {"error": str(e)}] and the agent is not called. *)
Theorem unreadable_body_is_500
    {A : Type} `{Agent A} (route : string) (e : exn) (a : A) (w : world) :
  In route ["/move"; "/game-start"; "/game-end"] ->
  handle (mkRequest "POST" route (inl e)) a w =
  (JsonResponse 500 (JObj [("error", JStr (str e))]), a, w).
Proof.
  intros Hin. apply post_unreadable.
  - reflexivity.
  - cbn in Hin. destruct Hin as [<- | [<- | [<- | []]]]; reflexivity.
  - left. reflexivity.
Qed.

Lemma unreadable_body_is_500_witness :
  handle (mkRequest "POST" "/move"
            (inl (OtherException "JSONDecodeError"
                    "Expecting value: line 1 column 1 (char 0)")))
    SimpleChessBot_init (constant_world 0 (ok "")) =
  (JsonResponse 500
     (JObj [("error", JStr "Expecting value: line 1 column 1 (char 0)")]),
   SimpleChessBot_init, constant_world 0 (ok "")).
Proof.
  apply (unreadable_body_is_500 "/move"). cbn. tauto.
Defined.

(** ** What the agents change *)

Lemma keeps_self_bind {S A B} (m : Py S A) (k : A -> Py S B) :
  keeps_self m -> (forall x, keeps_self (k x)) -> keeps_self (bind m k).
Proof.
  intros Hm Hk s w. unfold bind. specialize (Hm s w).
  destruct (m s w) as [[[e | x] s'] w']; cbn in *; subst; [reflexivity | apply Hk].
Qed.

Lemma keeps_self_pure {S A} (r : result A) : keeps_self (@pure S A r).
Proof. intros s w. reflexivity. Qed.

Lemma keeps_self_ret {S A} (x : A) : keeps_self (@ret S A x).
Proof. intros s w. reflexivity. Qed.

Lemma keeps_self_throw {S A} (e : exn) : keeps_self (@throw S A e).
Proof. intros s w. reflexivity. Qed.

Lemma keeps_self_get_self {S} : keeps_self (@get_self S).
Proof. intros s w. reflexivity. Qed.

Lemma keeps_self_random_choice {S} (seq : json) : keeps_self (@random_choice S seq).
Proof.
  intros s w. unfold random_choice.
  destruct (py_len seq) as [e | [| n]]; reflexivity.
Qed.

Lemma keeps_self_run_engine {S} : keeps_self (@run_engine S).
Proof. intros s w. reflexivity. Qed.

Lemma keeps_self_try_except {S A} (m : Py S A) (h : exn -> Py S A) :
  keeps_self m -> (forall e, keeps_self (h e)) -> keeps_self (try_except m h).
Proof.
  intros Hm Hh s w. unfold try_except. specialize (Hm s w).
  destruct (m s w) as [[[e | x] s'] w']; cbn in *; subst; [apply Hh | reflexivity].
Qed.

Lemma keeps_world_bind {S A B} (m : Py S A) (k : A -> Py S B) :
  keeps_world m -> (forall x, keeps_world (k x)) -> keeps_world (bind m k).
Proof.
  intros Hm Hk s w. unfold bind. specialize (Hm s w).
  destruct (m s w) as [[[e | x] s'] w']; cbn in *; subst; [reflexivity | apply Hk].
Qed.

Lemma keeps_world_pure {S A} (r : result A) : keeps_world (@pure S A r).
Proof. intros s w. reflexivity. Qed.

Lemma keeps_world_ret {S A} (x : A) : keeps_world (@ret S A x).
Proof. intros s w. reflexivity. Qed.

Lemma keeps_world_throw {S A} (e : exn) : keeps_world (@throw S A e).
Proof. intros s w. reflexivity. Qed.

Ltac keeps :=
  repeat first
    [ apply keeps_self_bind | apply keeps_self_pure | apply keeps_self_ret
    | apply keeps_self_throw | apply keeps_self_get_self
    | apply keeps_self_random_choice | apply keeps_self_run_engine
    | apply keeps_self_try_except
    | apply keeps_world_bind | apply keeps_world_pure | apply keeps_world_ret
    | apply keeps_world_throw
    | match goal with
      | |- forall _, _ => intro
      | |- keeps_self (if ?b then _ else _) => destruct b
      | |- keeps_world (if ?b then _ else _) => destruct b
      end ].

Lemma ChessAgent_make_move_keeps {S} (gs : json) :
  keeps_self (@ChessAgent_make_move S gs) /\
  keeps_world (@ChessAgent_make_move S gs).
Proof. split; unfold ChessAgent_make_move; keeps. Qed.

Lemma StockfishBot_make_move_keeps (gs : json) :
  keeps_self (StockfishBot_make_move gs).
Proof.
  unfold StockfishBot_make_move, _get_stockfish_move. keeps.
Qed.

Lemma select_move_keeps (moves gs : json) : keeps_self (_select_move moves gs).
Proof. unfold _select_move, select_where. keeps. Qed.

(** One [make_move] of the heuristic agent: the counter goes up by one,
    whatever the game state is and however the call ends. *)
Lemma SimpleChessBot_make_move_counts (gs : json) (a : SimpleChessBot) (w : world) :
  snd (fst (SimpleChessBot_make_move gs a w)) =
  mkSimpleChessBot (simple_base a) (move_count a + 1) (trash_talk_lines a).
Proof.
  unfold SimpleChessBot_make_move.
  rewrite (bind_ok get_self _ a w a a w eq_refl).
  rewrite (bind_ok (set_move_count _) _ a w tt
             (mkSimpleChessBot (simple_base a) (move_count a + 1)
                (trash_talk_lines a)) w eq_refl).
  match goal with |- snd (fst (?m ?s w)) = _ =>
    assert (Hk : keeps_self m) end.
  { pose proof select_move_keeps. keeps. }
  apply Hk.
Qed.

Lemma run_calls_keep_self {A : Type} `{Agent A} :
  (forall gs, keeps_self (make_move gs)) ->
  (forall gs, keeps_self (on_game_start gs)) ->
  (forall r, keeps_self (on_game_end r)) ->
  forall cs (a : A) w, fst (run_calls cs a w) = a.
Proof.
  intros Hm Hs He cs. induction cs as [| c cs IH]; intros a w; [reflexivity |].
  cbn [run_calls].
  assert (Hc : fst (run_call c a w) = a).
  { destruct c as [gs | gs | r]; cbn [run_call].
    - specialize (Hm gs a w). now destruct (make_move gs a w) as [[? ?] ?].
    - specialize (Hs gs a w). now destruct (on_game_start gs a w) as [[? ?] ?].
    - specialize (He r a w). now destruct (on_game_end r a w) as [[? ?] ?]. }
  destruct (run_call c a w) as [a' w']. cbn in Hc. subst a'. apply IH.
Qed.

Lemma run_calls_keep_world {A : Type} `{Agent A} :
  (forall gs, keeps_world (make_move gs)) ->
  (forall gs, keeps_world (on_game_start gs)) ->
  (forall r, keeps_world (on_game_end r)) ->
  forall cs (a : A) w, snd (run_calls cs a w) = w.
Proof.
  intros Hm Hs He cs. induction cs as [| c cs IH]; intros a w; [reflexivity |].
  cbn [run_calls].
  assert (Hc : snd (run_call c a w) = w).
  { destruct c as [gs | gs | r]; cbn [run_call].
    - specialize (Hm gs a w). now destruct (make_move gs a w) as [[? ?] ?].
    - specialize (Hs gs a w). now destruct (on_game_start gs a w) as [[? ?] ?].
    - specialize (He r a w). now destruct (on_game_end r a w) as [[? ?] ?]. }
  destruct (run_call c a w) as [a' w']. cbn in Hc. subst w'. apply IH.
Qed.

Lemma chess_agent_unchanged (cs : list call) (a : ChessAgent) (w : world) :
  run_calls cs a w = (a, w).
Proof.
  rewrite (surjective_pairing (run_calls cs a w)). f_equal.
  - apply run_calls_keep_self; intros x; cbn; try apply ChessAgent_make_move_keeps;
      intros s w0; reflexivity.
  - apply run_calls_keep_world; intros x; cbn; try apply ChessAgent_make_move_keeps;
      intros s w0; reflexivity.
Qed.

Lemma trivia_agent_unchanged (cs : list call) (a : TriviaAgent) (w : world) :
  run_calls cs a w = (a, w).
Proof.
  rewrite (surjective_pairing (run_calls cs a w)). f_equal.
  - apply run_calls_keep_self; intros x s w0; reflexivity.
  - apply run_calls_keep_world; intros x s w0; reflexivity.
Qed.

Lemma debate_agent_unchanged (cs : list call) (a : DebateAgent) (w : world) :
  run_calls cs a w = (a, w).
Proof.
  rewrite (surjective_pairing (run_calls cs a w)). f_equal.
  - apply run_calls_keep_self; intros x s w0; reflexivity.
  - apply run_calls_keep_world; intros x s w0; reflexivity.
Qed.

Lemma stockfish_bot_unchanged (cs : list call) (a : StockfishBot) (w : world) :
  fst (run_calls cs a w) = a.
Proof.
  apply run_calls_keep_self; intros x; cbn.
  - apply StockfishBot_make_move_keeps.
  - unfold StockfishBot_on_game_start. keeps.
  - intros s w0. reflexivity.
Qed.

Lemma simple_bot_after_calls (cs : list call) (a : SimpleChessBot) (w : world) :
  fst (run_calls cs a w) =
  mkSimpleChessBot (simple_base a) (fold_left counted cs (move_count a))
    (trash_talk_lines a).
Proof.
  revert a w. induction cs as [| c cs IH]; intros a w.
  - now destruct a.
  - cbn [run_calls fold_left].
    assert (Hc : fst (run_call c a w) =
                 mkSimpleChessBot (simple_base a) (counted (move_count a) c)
                   (trash_talk_lines a)).
    { destruct c as [gs | gs | r]; cbn [run_call counted make_move on_game_start
                                         on_game_end SimpleChessBot_Agent].
      - pose proof (SimpleChessBot_make_move_counts gs a w) as Hm.
        now destruct (SimpleChessBot_make_move gs a w) as [[? ?] ?].
      - unfold SimpleChessBot_on_game_start, set_move_count, bind, pure, ret.
        now destruct (py_get gs "yourColor" (JStr "unknown")).
      - now destruct a. }
    destruct (run_call c a w) as [a' w']. cbn [fst] in Hc. subst a'.
    now rewrite IH.
Qed.

(** X5. The default chess agent, the trivia and debate agents are never
    changed by any sequence of calls and never use the random source or the
    engine; the engine-backed agent is never changed either (it keeps no
    state between moves). *)
Theorem stateless_agents_are_never_changed (cs : list call) (w : world) :
  (forall a : ChessAgent, run_calls cs a w = (a, w)) /\
  (forall a : TriviaAgent, run_calls cs a w = (a, w)) /\
  (forall a : DebateAgent, run_calls cs a w = (a, w)) /\
  (forall a : StockfishBot, fst (run_calls cs a w) = a).
Proof.
  split; [| split; [| split]]; intros a.
  - apply chess_agent_unchanged.
  - apply trivia_agent_unchanged.
  - apply debate_agent_unchanged.
  - apply stockfish_bot_unchanged.
Qed.

(** X6. The heuristic agent's counter is the number of [make_move] calls
    since the last [on_game_start] (or since construction), counting the
    calls that raised; [on_game_end] leaves it alone. In particular after
    [on_game_start] and [k] calls of [make_move] it is [k]. Name,
    description and commentary lines never change. *)
Theorem move_counter_counts_moves_of_the_game
    (cs : list call) (a : SimpleChessBot) (w : world) :
  fst (run_calls cs a w) =
    mkSimpleChessBot (simple_base a) (fold_left counted cs (move_count a))
      (trash_talk_lines a) /\
  (forall start states,
      move_count
        (fst (run_calls (cs ++ OnGameStart start :: map MakeMove states) a w))
      = Z.of_nat (List.length states)).
Proof.
  split; [apply simple_bot_after_calls |].
  intros start states. rewrite simple_bot_after_calls. cbn [move_count].
  rewrite fold_left_app. cbn [fold_left counted].
  assert (Hk : forall n,
    fold_left counted (map MakeMove states) n = n + Z.of_nat (List.length states)).
  { induction states as [| gs states IH]; intros n;
      cbn [map fold_left counted List.length].
    - cbn. lia.
    - rewrite IH. lia. }
  now rewrite Hk.
Qed.

(** X7. For each agent class, [GET /info] gives the same answer after any
    history of requests as before it: name, description and game type are
    fixed at construction. *)
Theorem info_is_the_same_after_any_history (rs : list request) (w : world) :
  let info_after {A} `{Agent A} (a : A) :=
    fst (fst (handle (GET "/info") (snd (fst (serve rs a w))) (snd (serve rs a w)))) in
  let info_before {A} `{Agent A} (a : A) :=
    JsonResponse 200
      (JObj [("name", JStr (name a)); ("description", JStr (description a));
             ("gameType", JStr (game_type a))]) in
  (forall a : ChessAgent, info_after a = info_before a) /\
  (forall a : TriviaAgent, info_after a = info_before a) /\
  (forall a : DebateAgent, info_after a = info_before a) /\
  (forall a : SimpleChessBot, info_after a = info_before a) /\
  (forall a : StockfishBot, info_after a = info_before a).
Proof.
  cbv zeta.
  split; [| split; [| split; [| split]]]; intros a;
    pose proof (f_equal fst (serve_state rs a w)) as Hs; cbn [fst] in Hs;
    rewrite Hs.
  - now rewrite chess_agent_unchanged.
  - now rewrite trivia_agent_unchanged.
  - now rewrite debate_agent_unchanged.
  - now rewrite simple_bot_after_calls.
  - now rewrite stockfish_bot_unchanged.
Qed.

(** ** The default chess agent and [MoveResponse], at the edges *)

(** X8. [ChessAgent.make_move] raises [ValueError("No valid moves
    available")] exactly when the game state is an object whose
    [validMoves] is missing or falsy ([null], [false], [0], [""], [[]],
    [{}]); with a truthy [validMoves] it never raises a [ValueError]. On a
    game state that is not an object it raises [AttributeError]. *)
Theorem default_agent_without_moves (a : ChessAgent) (w : world) :
  (forall d,
      let v := match lookup "validMoves" d with Some v => v | None => JNull end in
      (truthy v = false ->
       make_move (JObj d) a w =
         (raise (ValueError "No valid moves available"), a, w)) /\
      (truthy v = true ->
       forall msg, fst (fst (make_move (JObj d) a w)) <> raise (ValueError msg))) /\
  (forall gs,
      (forall d, gs <> JObj d) ->
      make_move gs a w = (raise (AttributeError (type_name gs) "get"), a, w)).
Proof.
  split.
  - intros d v. cbn [make_move ChessAgent_Agent].
    unfold ChessAgent_make_move, bind, pure, throw, ret. cbn [py_get ok].
    fold v. split; intros Hv; rewrite Hv; cbn [negb]; [reflexivity |].
    intros msg. unfold py_item.
    destruct (lookup "validMoves" d) as [v' |] eqn:Hl; subst v; [| discriminate].
    cbn [fst snd ok].
    destruct v' as [| b | n | f | s | items | fields]; cbn in Hv |- *;
      try discriminate.
    + unfold char_at. destruct (nth_error (utf8_chars s) 0);
        unfold ok, raise; cbn; discriminate.
    + destruct items as [| m items]; [discriminate |]. cbn.
      destruct m as [| | | | | | first]; cbn; try discriminate.
      destruct (lookup "from" first); cbn; [| discriminate].
      destruct (lookup "to" first); cbn; discriminate.
  - intros gs Hgs. cbn [make_move ChessAgent_Agent].
    unfold ChessAgent_make_move, bind, pure.
    destruct gs; try reflexivity. now destruct (Hgs fields).
Qed.

Lemma default_agent_without_moves_witness :
  make_move (JObj [("fen", JStr "8/8/8/8/8/8/8/8 w - - 0 1");
                   ("validMoves", JNull)])
    (mkAgentBase "first" "" : ChessAgent) (constant_world 0 (ok "")) =
  (raise (ValueError "No valid moves available"),
   mkAgentBase "first" "", constant_world 0 (ok "")).
Proof.
  destruct (default_agent_without_moves (mkAgentBase "first" "")
              (constant_world 0 (ok ""))) as (Hobj & _).
  exact (proj1 (Hobj [("fen", JStr "8/8/8/8/8/8/8/8 w - - 0 1");
                      ("validMoves", JNull)]) eq_refl).
Defined.

(** X9. When the first valid move is an object without [from], the default
    chess agent raises [KeyError('from')], whose text is ['from'] with the
    quotes; with [from] but without [to] it raises [KeyError('to')]. A
    missing [promotion] is never an error. *)
Theorem default_agent_needs_both_squares
    (a : ChessAgent) (w : world) (gs first : list (string * json))
    (others : list json) :
  lookup "validMoves" gs = Some (JArr (JObj first :: others)) ->
  (lookup "from" first = None ->
   make_move (JObj gs) a w = (raise (KeyError "'from'"), a, w)) /\
  (lookup "from" first <> None -> lookup "to" first = None ->
   make_move (JObj gs) a w = (raise (KeyError "'to'"), a, w)) /\
  (lookup "from" first <> None -> lookup "to" first <> None ->
   exists response, make_move (JObj gs) a w = (ok response, a, w)).
Proof.
  intros Hvm. cbn [make_move ChessAgent_Agent].
  unfold ChessAgent_make_move, bind, pure, throw, ret. cbn. rewrite Hvm. cbn.
  split; [| split].
  - intros ->. reflexivity.
  - intros Hf ->. destruct (lookup "from" first); [reflexivity | contradiction].
  - intros Hf Ht.
    destruct (lookup "from" first); [| contradiction].
    destruct (lookup "to" first); [| contradiction].
    cbn. eauto.
Qed.

Lemma default_agent_needs_both_squares_witness :
  fst (fst (handle (POST "/move"
                      (JObj [("gameState",
                              JObj [("validMoves",
                                     JArr [JObj [("to", JStr "e4")]])])]))
              (mkAgentBase "first" "" : ChessAgent) (constant_world 0 (ok ""))))
  = JsonResponse 500 (JObj [("error", JStr "'from'")]).
Proof.
  destruct (default_agent_needs_both_squares (mkAgentBase "first" "")
              (constant_world 0 (ok ""))
              [("validMoves", JArr [JObj [("to", JStr "e4")]])]
              [("to", JStr "e4")] [] eq_refl) as (Hfrom & _).
  rewrite (post_move
             (JObj [("gameState",
                     JObj [("validMoves", JArr [JObj [("to", JStr "e4")]])])])
             (JObj [("validMoves", JArr [JObj [("to", JStr "e4")]])])
             _ _ eq_refl).
  rewrite (Hfrom eq_refl). reflexivity.
Defined.

(** X10. [MoveResponse.to_dict] has the action under [action]; it has a
    [trashTalk] key exactly when the commentary is a non-empty string, with
    that string as value; it has no other key. *)
Theorem to_dict_keys (r : MoveResponse) :
  lookup "action" (to_dict r) = Some (action r) /\
  lookup "trashTalk" (to_dict r) =
    match trash_talk r with
    | Some t => if (t =? "")%string then None else Some (JStr t)
    | None => None
    end /\
  (forall k, k <> "action" -> k <> "trashTalk" -> lookup k (to_dict r) = None).
Proof.
  destruct r as [act [t |]]; unfold to_dict; cbn [action trash_talk truthy].
  - destruct (String.eqb_spec t ""); cbn [negb]; repeat split;
      try reflexivity; intros k Ha Ht; cbn;
      apply String.eqb_neq in Ha; apply String.eqb_neq in Ht;
      now rewrite ?Ha, ?Ht.
  - repeat split. intros k Ha Ht. cbn. apply String.eqb_neq in Ha. now rewrite Ha.
Qed.

(** ** The example bots *)

(** X11. On a non-empty list of chess moves the heuristic agent makes two
    draws: the first picks the move, the second picks the commentary, which
    is the entry of [trash_talk_lines] at the second draw modulo 8. The
    answer always has a [trashTalk] key; its value is [null] exactly when
    that index is 6 or 7. *)
Theorem heuristic_commentary_is_the_second_draw
    (n : Z) (w : world) (gs : list (string * json)) (moves : list json) :
  let self := mkSimpleChessBot (simple_base SimpleChessBot_init) n
                (trash_talk_lines SimpleChessBot_init) in
  let self' := mkSimpleChessBot (simple_base SimpleChessBot_init) (n + 1)
                 (trash_talk_lines SimpleChessBot_init) in
  lookup "validMoves" gs = Some (JArr moves) ->
  moves <> [] ->
  forallb chess_move moves = true ->
  exists act commentary,
    make_move (JObj gs) self w =
      (ok (JObj [("action", act); ("trashTalk", commentary)]), self',
       mkWorld (shift (shift (rng w))) (engine w)) /\
    nth_error (trash_talk_lines SimpleChessBot_init)
      (Nat.modulo (rng w 1%nat) 8) = Some commentary /\
    (commentary = JNull <-> (6 <= Nat.modulo (rng w 1%nat) 8)%nat).
Proof.
  intros self self' Hvm Hne Hall.
  destruct (select_move_tiers self' w moves (JObj gs) Hne Hall)
    as (m & Hsel & Hin & _).
  rewrite forallb_forall in Hall.
  destruct (chess_move_fields m (Hall m Hin)) as (d & f & t & s & -> & Hf & Ht & _).
  destruct (random_choice_list (trash_talk_lines SimpleChessBot_init) self'
              (mkWorld (shift (rng w)) (engine w)))
    as (c & Hnth & _ & Hrc); [discriminate |].
  change (List.length (trash_talk_lines SimpleChessBot_init)) with 8%nat in Hnth.
  change (rng (mkWorld (shift (rng w)) (engine w)) 0%nat) with (rng w 1%nat) in Hnth.
  eexists. exists c. split; [| split].
  - cbn [make_move SimpleChessBot_Agent]. unfold SimpleChessBot_make_move.
    rewrite (bind_ok get_self _ self w self self w eq_refl).
    rewrite (bind_ok (set_move_count _) _ self w tt self' w eq_refl).
    unfold pure at 1.
    erewrite bind_ok by (cbn; rewrite Hvm; reflexivity).
    replace (negb (truthy (JArr moves))) with false
      by (destruct moves; [contradiction | reflexivity]).
    rewrite (bind_ok _ _ _ _ _ _ _ Hsel).
    erewrite bind_ok by reflexivity.
    rewrite (bind_ok _ _ _ _ _ _ _ Hrc).
    unfold pure, bind, ret. cbn. rewrite Hf, Ht. reflexivity.
  - exact Hnth.
  - pose proof (Nat.mod_upper_bound (rng w 1%nat) 8 ltac:(discriminate)) as Hlt.
    destruct (Nat.modulo (rng w 1%nat) 8) as [|[|[|[|[|[|[|[|i]]]]]]]];
      cbn in Hnth; try lia; inversion Hnth; subst c;
      (split; [intros Hc; try discriminate Hc; lia | intros Hi; try reflexivity; lia]).
Qed.

Lemma heuristic_commentary_is_the_second_draw_witness :
  exists act,
    make_move capture_scenario SimpleChessBot_init
      (mkWorld (fun i => i) (fun _ => ok "")) =
    (ok (JObj [("action", act);
               ("trashTalk", JStr "Is that really your best move?")]),
     mkSimpleChessBot (simple_base SimpleChessBot_init) 1
       (trash_talk_lines SimpleChessBot_init),
     mkWorld (shift (shift (fun i => i))) (fun _ => ok "")).
Proof.
  destruct (heuristic_commentary_is_the_second_draw 0
              (mkWorld (fun i => i) (fun _ => ok ""))
              [("validMoves", JArr [e2e4; dxe5])] [e2e4; dxe5]
              eq_refl ltac:(discriminate) eq_refl)
    as (act & c & Hmove & Hnth & _).
  cbn in Hnth. inversion Hnth; subst c. exists act. exact Hmove.
Defined.

(** X12. When the engine answers with a usable [bestmove] line, the
    engine-backed agent returns the parsed move as its action without
    looking it up in [validMoves], which only has to be truthy; it makes
    one draw, for the commentary, which is one of the three winning
    lines. *)
Theorem engine_move_is_returned_unchecked
    (path : string) (dep : Z) (w : world) (gs : list (string * json))
    (valid_moves : json) (out : string) (move : json) :
  let self := StockfishBot_init path dep in
  lookup "validMoves" gs = Some valid_moves ->
  truthy valid_moves = true ->
  engine w 0%nat = inr out ->
  parse_bestmove (split_on newline out) = inr move ->
  exists commentary,
    nth_error (winning_trash_talk self) (Nat.modulo (rng w 0%nat) 3)
      = Some (JStr commentary) /\
    make_move (JObj gs) self w =
      (ok (JObj [("action", move); ("trashTalk", JStr commentary)]), self,
       mkWorld (shift (rng w)) (shift (engine w))).
Proof.
  intros self Hvm Htruthy Hengine Hparse.
  set (w1 := mkWorld (rng w) (shift (engine w))).
  destruct (random_choice_list (winning_trash_talk self) self w1)
    as (c & Hnth & Hin & Hrc); [discriminate |].
  assert (Hc : exists commentary, c = JStr commentary).
  { cbn in Hin. destruct Hin as [<- | [<- | [<- | []]]]; eauto. }
  destruct Hc as (commentary & ->).
  exists commentary. split; [exact Hnth |].
  cbn [make_move StockfishBot_Agent]. unfold StockfishBot_make_move.
  unfold pure at 1. erewrite bind_ok by reflexivity.
  unfold pure at 1. erewrite bind_ok by (cbn; rewrite Hvm; reflexivity).
  rewrite Htruthy. cbn [negb].
  erewrite bind_ok.
  2:{ unfold try_except. rewrite get_stockfish_move_outcome, Hengine, Hparse.
      reflexivity. }
  erewrite bind_ok by reflexivity.
  erewrite bind_ok by exact Hrc.
  reflexivity.
Qed.

(** The engine proposes [a7a8q] while the only valid move is [e2e4]. *)
Lemma engine_move_is_returned_unchecked_witness :
  exists commentary,
    fst (fst (make_move (JObj [("validMoves", JArr [e2e4])])
                (StockfishBot_init "stockfish" 15)
                (constant_world 1 (ok "bestmove a7a8q ponder h7h6")))) =
    ok (JObj [("action",
               JObj [("from", JStr "a7"); ("to", JStr "a8");
                     ("promotion", JStr "q")]);
              ("trashTalk", JStr commentary)]).
Proof.
  destruct (engine_move_is_returned_unchecked "stockfish" 15
              (constant_world 1 (ok "bestmove a7a8q ponder h7h6"))
              [("validMoves", JArr [e2e4])] (JArr [e2e4])
              "bestmove a7a8q ponder h7h6"
              (JObj [("from", JStr "a7"); ("to", JStr "a8");
                     ("promotion", JStr "q")])
              eq_refl eq_refl eq_refl eq_refl) as (c & _ & Hmove).
  exists c. now rewrite Hmove.
Defined.

(** ** Reading the engine's answer *)

Lemma ascii_is_no_continuation (c : ascii) :
  is_ascii c = true -> is_continuation c = false.
Proof.
  destruct c as [b0 b1 b2 b3 b4 b5 b6 b7]. cbn.
  destruct b7; [discriminate | reflexivity].
Qed.

Lemma utf8_chars_ascii (word rest : string) :
  all_ascii word = true ->
  starts_at_char rest = true ->
  utf8_chars (word ++ rest) = (singles word ++ utf8_chars rest)%list.
Proof.
  induction word as [| c word IH]; intros Hascii Hrest; [reflexivity |].
  cbn in Hascii. apply andb_prop in Hascii as [Hc Hword].
  specialize (IH Hword Hrest).
  cbn [append singles app utf8_chars].
  destruct (word ++ rest) as [| c' tail] eqn:Happ.
  - destruct word; [| discriminate]. cbn in Happ. subst rest. reflexivity.
  - assert (Hc' : is_continuation c' = false).
    { destruct word as [| c'' word'].
      - cbn in Happ. subst rest. cbn in Hrest.
        now apply negb_true_iff in Hrest.
      - cbn in Happ. inversion Happ; subst c'' tail.
        cbn in Hword. apply andb_prop in Hword as [Hc'' _].
        now apply ascii_is_no_continuation. }
    rewrite Hc'. now rewrite IH.
Qed.

Lemma words_singles (word : string) (chs : list string) :
  no_space word = true ->
  word <> "" ->
  (chs = [] \/ exists ch chs', chs = ch :: chs' /\ is_space ch = true) ->
  words (singles word ++ chs) = word :: words chs.
Proof.
  induction word as [| c word IH]; intros Hns Hne Hchs; [contradiction |].
  cbn [no_space] in Hns. apply andb_prop in Hns as [Hc Hword].
  apply negb_true_iff in Hc.
  cbn [singles app words]. rewrite Hc.
  destruct word as [| c' word'].
  - cbn [singles app].
    destruct Hchs as [-> | (ch & chs' & -> & Hsp)]; [reflexivity |].
    rewrite Hsp. reflexivity.
  - assert (Hc' : is_space (String c' "") = false).
    { cbn [no_space] in Hword. apply andb_prop in Hword as [Hc' _].
      now apply negb_true_iff in Hc'. }
    specialize (IH Hword ltac:(discriminate) Hchs).
    cbn [singles app] in IH |- *. rewrite Hc', IH. reflexivity.
Qed.

(** X13. The loop over the engine's output lines returns the move of the
    first line that starts with [bestmove]: for a move word of ASCII
    characters without white space, made of a two-character origin, a
    two-character destination and an optional promotion letter, followed by
    nothing or by a space and anything (such as [ponder ...]), the result
    has exactly that origin, that destination, and the promotion letter or
    [null]. Lines after it are not read. *)
Theorem parse_reads_the_first_bestmove
    (before after : list string) (from to : string)
    (promotion : option ascii) (rest : string) :
  (forall l, In l before -> String.prefix "bestmove" l = false) ->
  String.length from = 2%nat ->
  String.length to = 2%nat ->
  all_ascii (uci from to promotion) = true ->
  no_space (uci from to promotion) = true ->
  (rest = "" \/
   exists rest', rest = String " " rest' /\ starts_at_char rest' = true) ->
  parse_bestmove
    (before ++ ("bestmove " ++ uci from to promotion ++ rest)%string :: after)%list =
  ok (JObj [("from", JStr from); ("to", JStr to);
            ("promotion",
             match promotion with
             | Some c => JStr (String c "")
             | None => JNull
             end)]).
Proof.
  intros Hbefore Hfrom Hto Hascii Hns Hrest.
  induction before as [| l before IH].
  - cbn [app parse_bestmove].
    change (String.prefix "bestmove" ("bestmove " ++ uci from to promotion ++ rest))
      with true. cbv iota.
    set (word := uci from to promotion) in *.
    assert (Hword : word <> "") by (destruct from; discriminate).
    assert (Hstart : starts_at_char rest = true).
    { destruct Hrest as [-> | (rest' & -> & _)]; reflexivity. }
    assert (Hchs : utf8_chars rest = [] \/
                   exists ch chs', utf8_chars rest = ch :: chs' /\ is_space ch = true).
    { destruct Hrest as [-> | (rest' & -> & Hr')]; [now left | right].
      exists " ", (utf8_chars rest'). split; [| reflexivity].
      exact (utf8_chars_ascii " " rest' eq_refl Hr'). }
    assert (Hsplit : split_ws ("bestmove " ++ word ++ rest) =
                     "bestmove" :: word :: words (utf8_chars rest)).
    { unfold split_ws.
      change ("bestmove " ++ word ++ rest) with (("bestmove " ++ word) ++ rest).
      rewrite utf8_chars_ascii; [| exact Hascii | exact Hstart].
      change (singles ("bestmove " ++ word))
        with (singles "bestmove" ++ " " :: singles word)%list.
      rewrite <- app_assoc.
      rewrite words_singles; [| reflexivity | discriminate |
                                right; eexists; eexists; split; reflexivity].
      f_equal. cbn [app words]. change (is_space " ") with true. cbv iota.
      apply words_singles; assumption. }
    rewrite Hsplit.
    assert (Hchars : utf8_chars word = singles word).
    { pose proof (utf8_chars_ascii word "" Hascii eq_refl) as Hc.
      cbn [utf8_chars] in Hc. rewrite app_nil_r in Hc. rewrite <- Hc.
      f_equal. clear. induction word as [| c w IHw]; [reflexivity |].
      cbn. now rewrite <- IHw. }
    unfold py_slice, char_at. rewrite Hchars. subst word.
    destruct from as [| f1 [| f2 [| ? ?]]]; try discriminate.
    destruct to as [| t1 [| t2 [| ? ?]]]; try discriminate.
    destruct promotion as [c |]; reflexivity.
  - cbn [app parse_bestmove].
    rewrite (Hbefore l (or_introl eq_refl)).
    apply IH. intros l' Hin. apply Hbefore. now right.
Qed.

Lemma parse_reads_the_first_bestmove_witness :
  parse_bestmove
    (split_on newline
       "info depth 10 score cp 35
bestmove e7e8q ponder a7a6
bestmove a1a2") =
  ok (JObj [("from", JStr "e7"); ("to", JStr "e8"); ("promotion", JStr "q")]).
Proof.
  apply (parse_reads_the_first_bestmove
           ["info depth 10 score cp 35"] ["bestmove a1a2"]
           "e7" "e8" (Some "q"%char) " ponder a7a6").
  - intros l [<- | []]. reflexivity.
  - reflexivity.
  - reflexivity.
  - reflexivity.
  - reflexivity.
  - right. eexists. split; reflexivity.
Defined.

(** X14. Reading the engine's output fails only with
    [ValueError("Could not parse Stockfish output")], and it fails exactly
    when no line both starts with [bestmove] and has a second word. *)
Theorem parse_fails_only_without_bestmove (lines : list string) :
  (forall e, parse_bestmove lines = inl e ->
             e = ValueError "Could not parse Stockfish output") /\
  ((exists e, parse_bestmove lines = inl e) <->
   (forall line, In line lines ->
                 String.prefix "bestmove" line = true ->
                 (List.length (split_ws line) < 2)%nat)).
Proof.
  induction lines as [| line lines (IHe & IHiff)].
  - split.
    + intros e He. now inversion He.
    + split; [intros _ line [] | intros _; eexists; reflexivity].
  - cbn [parse_bestmove].
    destruct (String.prefix "bestmove" line) eqn:Hp.
    + destruct (split_ws line) as [| w1 [| w2 ws]] eqn:Hs.
      * split; [exact IHe |]. rewrite IHiff. split.
        -- intros Hall l [<- | Hin]; [intros _; rewrite Hs; cbn; lia | now apply Hall].
        -- intros Hall l Hin. apply Hall. now right.
      * split; [exact IHe |]. rewrite IHiff. split.
        -- intros Hall l [<- | Hin]; [intros _; rewrite Hs; cbn; lia | now apply Hall].
        -- intros Hall l Hin. apply Hall. now right.
      * split; [intros e He; discriminate He |]. split.
        -- intros (e & He). discriminate He.
        -- intros Hall. specialize (Hall line (or_introl eq_refl) Hp).
           rewrite Hs in Hall. cbn in Hall. lia.
    + split; [exact IHe |]. rewrite IHiff. split.
      * intros Hall l [<- | Hin]; [intros Hp'; congruence | now apply Hall].
      * intros Hall l Hin. apply Hall. now right.
Qed.

(** ** The process *)

Lemma store_length {X} (i : nat) (x : X) (l : list X) :
  List.length (store i x l) = List.length l.
Proof.
  revert i. induction l as [| y l IH]; intros [| i]; cbn; auto.
Qed.

Lemma store_other {X} (i j : nat) (x : X) (l : list X) :
  i <> j -> nth_error (store i x l) j = nth_error l j.
Proof.
  revert i j. induction l as [| y l IH]; intros [| i] [| j] Hij; cbn; auto.
  contradiction.
Qed.

Lemma store_same {X} (i : nat) (x y : X) (l : list X) :
  nth_error l i = Some y -> nth_error (store i x l) i = Some x.
Proof.
  revert i. induction l as [| z l IH]; intros [| i] Hi; cbn in *;
    try discriminate; auto.
Qed.

(** X16. A request changes at most one thing in the process besides the
    environment: the agent object the handler class points to, which is
    replaced by the state its call left. The other agent objects, the
    number of objects, the listening ports and the handler's agent stay as
    they were; a request to a port where no server listens gets no
    response and changes nothing. *)
Theorem request_changes_only_the_served_agent
    (at_port : Z) (r : request) (p : process) :
  let p' := snd (process_request at_port r p) in
  listening p' = listening p /\
  AgentRequestHandler_agent p' = AgentRequestHandler_agent p /\
  List.length (heap p') = List.length (heap p) /\
  (forall i, AgentRequestHandler_agent p <> Some i ->
             nth_error (heap p') i = nth_error (heap p) i) /\
  (existsb (Z.eqb at_port) (listening p) = false ->
   process_request at_port r p = (None, p)).
Proof.
  unfold process_request.
  destruct (existsb (Z.eqb at_port) (listening p)); [| cbn; repeat split; auto].
  destruct (AgentRequestHandler_agent p) as [ref |] eqn:Hag;
    [| cbn; rewrite Hag; repeat split; auto; discriminate].
  destruct (nth_error (heap p) ref) as [[T C self] |];
    [| cbn; rewrite Hag; repeat split; auto; discriminate].
  destruct (handle r self (env p)) as [[resp self'] w']. cbn.
  repeat split.
  - apply store_length.
  - intros i Hi. apply store_other. congruence.
  - discriminate.
Qed.

(** X17. [run_local] on an agent of the process makes a server listen on
    the port and answer for that agent: a request to the port is handled by
    the agent and the state the call leaves is stored back in the object.
    If the port cannot be bound, [run_local] raises the error and nothing
    new listens, but the handler class already points to the agent. *)
Theorem run_local_serves_the_agent
    (ref : nat) (pt : Z) (p : process) (r : request)
    (T : Type) (C : Agent T) (self : T) :
  nth_error (heap p) ref = Some (Pack T C self) ->
  (let p' := snd (run_local ref pt (ok tt) p) in
   let '(resp, self', w') := @handle T C r self (env p) in
   fst (process_request pt r p') = Some resp /\
   nth_error (heap (snd (process_request pt r p'))) ref
     = Some (Pack T C self') /\
   env (snd (process_request pt r p')) = w') /\
  (forall e,
      run_local ref pt (inl e) p =
      (inl e, mkProcess (heap p) (Some ref) (listening p) (env p))).
Proof.
  intros Href. split; [| reflexivity].
  cbn. unfold process_request. cbn. rewrite Z.eqb_refl. cbn. rewrite Href.
  destruct (handle r self (env p)) as [[resp self'] w']. cbn.
  repeat split. eapply store_same. exact Href.
Qed.

Lemma run_local_serves_the_agent_witness :
  fst (process_request 8080 (GET "/info")
         (snd (run_local 1 8080 (ok tt) two_agents)))
  = Some (chess_info "second").
Proof.
  destruct (run_local_serves_the_agent 1 8080 two_agents (GET "/info")
              ChessAgent ChessAgent_Agent (mkAgentBase "second" "") eq_refl)
    as (Hok & _).
  cbv zeta in Hok. cbn [handle] in Hok.
  exact (proj1 Hok).
Defined.

Lemma listening_has_agent_witness :
  AgentRequestHandler_agent
    (snd (process_request 8080 (GET "/health")
            (snd (AgentServer_run (mkAgentServer 0 8080) (ok tt) two_agents))))
  <> None.
Proof.
  apply listening_has_agent.
  - apply reach_request. apply reach_run. apply reach_start.
  - cbn. discriminate.
Defined.

(** X18. With [validMoves] missing or falsy, both example bots raise
    [ValueError("No valid moves!")] before anything else happens: the
    engine-backed agent does not start the engine and makes no draw; the
    heuristic agent makes no draw either, but its counter has already gone
    up by one. *)
Theorem bots_without_moves_stop_early (d : list (string * json)) (w : world) :
  truthy (match lookup "validMoves" d with Some v => v | None => JArr [] end)
    = false ->
  (forall a : SimpleChessBot,
      make_move (JObj d) a w =
      (raise (ValueError "No valid moves!"),
       mkSimpleChessBot (simple_base a) (move_count a + 1) (trash_talk_lines a),
       w)) /\
  (forall a : StockfishBot,
      make_move (JObj d) a w = (raise (ValueError "No valid moves!"), a, w)).
Proof.
  intros Hv. split; intros a.
  - cbn [make_move SimpleChessBot_Agent].
    unfold SimpleChessBot_make_move, bind, pure, throw, get_self, set_move_count.
    cbn [py_get ok]. rewrite Hv. reflexivity.
  - cbn [make_move StockfishBot_Agent].
    unfold StockfishBot_make_move, bind, pure, throw.
    cbn [py_get ok]. rewrite Hv. reflexivity.
Qed.

Lemma bots_without_moves_stop_early_witness :
  make_move (JObj [("validMoves", JInt 0)]) (StockfishBot_init "stockfish" 15)
    (constant_world 2 (ok "bestmove e2e4")) =
  (raise (ValueError "No valid moves!"), StockfishBot_init "stockfish" 15,
   constant_world 2 (ok "bestmove e2e4")).
Proof.
  exact (proj2 (bots_without_moves_stop_early [("validMoves", JInt 0)]
                  (constant_world 2 (ok "bestmove e2e4")) eq_refl)
               (StockfishBot_init "stockfish" 15)).
Defined.

Lemma to_dict_keys_witness :
  lookup "promotion" (to_dict (mkMoveResponse e2e4 (Some "Check!"))) = None.
Proof.
  destruct (to_dict_keys (mkMoveResponse e2e4 (Some "Check!"))) as (_ & _ & Hother).
  apply Hother; discriminate.
Defined.

Lemma parse_fails_only_without_bestmove_witness :
  exists e, parse_bestmove ["uciok"; "readyok"; "bestmove"] = inl e.
Proof.
  apply (proj2 (parse_fails_only_without_bestmove ["uciok"; "readyok"; "bestmove"])).
  intros line [<- | [<- | [<- | []]]] Hp; cbn in Hp; try discriminate Hp.
  change (split_ws "bestmove") with ["bestmove"]. cbn [List.length]. lia.
Defined.

Lemma request_changes_only_the_served_agent_witness :
  let p := snd (AgentServer_run (mkAgentServer 1 8081) (ok tt) two_agents) in
  nth_error (heap (snd (process_request 8081 (POST "/move" (JObj [])) p))) 0
  = nth_error (heap p) 0 /\
  process_request 9000 (GET "/health") p = (None, p).
Proof.
  intros p.
  destruct (request_changes_only_the_served_agent 8081 (POST "/move" (JObj [])) p)
    as (_ & _ & _ & Hother & _).
  destruct (request_changes_only_the_served_agent 9000 (GET "/health") p)
    as (_ & _ & _ & _ & Hnone).
  split.
  - apply Hother. cbn. discriminate.
  - apply Hnone. reflexivity.
Defined.
